(** * Gradient descent (GD): the driver of [src/unconstrained/gd.cpp]

    A shallow embedding of [optim::internal::gd_basic_impl] and of the two
    [optim::gd] entry points.

    - [double] is the kernel's binary64 type [float]; comparisons are the
      IEEE ones, so every test involving a NaN is [false].
    - [Vec_t] is a list of doubles, [size_t] a natural number below [2^64]
      whose increment wraps.
    - The caller's objective is a function of its arguments and of the
      data behind [opt_data]; every invocation is recorded in the [World],
      which the driver threads through a small state monad.
    - The collaborators that live outside [gd.cpp] ([transform],
      [inv_transform], [jacobian_adjust], [determine_bounds_type],
      [gd_update], [gradient_clipping], [error_reporting], the two norms and
      the default settings) are parameters of the development.
    - Diagnostic output ([printf], [OPTIM_GD_TRACE]) is not modelled. *)

From Stdlib Require Import ZArith NArith List Bool Lia Floats.
Import ListNotations.

(** ** The vector operations layer

    The [BMO_MATOPS_*] macros and the vector types are defined outside
    [gd.cpp]; section 2 of the spec describes the layer as "elementwise
    arithmetic, norms, finiteness checks, diagonal extraction". *)

Module Matops.

(** Modelled from the spec: [Vec_t], a "real-valued vector of fixed
    dimension"; here a list of doubles. *)
Definition Vec_t := list float.

(** Modelled from the spec: [Mat_t], the matrix type of the layer; here
    the list of its rows. *)
Definition Mat_t := list (list float).

(** Modelled from the spec: [VecInt_t], the vector of per-coordinate
    bound classifications. *)
Definition VecInt_t := list Z.

(** Modelled from the spec: [BMO_MATOPS_SIZE], the number of entries. *)
Definition BMO_MATOPS_SIZE (v : Vec_t) : nat := length v.

(** Modelled from the spec: [BMO_MATOPS_ZERO_VEC], the zero vector of a
    given length. *)
Definition BMO_MATOPS_ZERO_VEC (n : nat) : Vec_t := repeat 0%float n.

(** Modelled from the spec: elementwise binary operations. Eigen and
    Armadillo leave operands of different sizes undefined; the model
    stops at the shorter one. *)
Fixpoint map2 (f : float -> float -> float) (a b : Vec_t) : Vec_t :=
  match a, b with
  | x :: a', y :: b' => f x y :: map2 f a' b'
  | _, _ => []
  end.

(** Modelled from the spec: the vector difference [x - d_p]. *)
Definition vec_sub : Vec_t -> Vec_t -> Vec_t := map2 PrimFloat.sub.

(** Modelled from the spec: [BMO_MATOPS_HADAMARD_PROD], the elementwise
    product. *)
Definition BMO_MATOPS_HADAMARD_PROD : Vec_t -> Vec_t -> Vec_t :=
  map2 PrimFloat.mul.

(** Modelled from the spec: [BMO_MATOPS_ARRAY_DIV_ARRAY], the elementwise
    quotient. *)
Definition BMO_MATOPS_ARRAY_DIV_ARRAY : Vec_t -> Vec_t -> Vec_t :=
  map2 PrimFloat.div.

(** Modelled from the spec: [BMO_MATOPS_ABS], the elementwise absolute
    value. *)
Definition BMO_MATOPS_ABS (v : Vec_t) : Vec_t := map PrimFloat.abs v.

(** Modelled from the spec: [BMO_MATOPS_ARRAY_ADD_SCALAR], a scalar added
    to every entry. *)
Definition BMO_MATOPS_ARRAY_ADD_SCALAR (v : Vec_t) (c : float) : Vec_t :=
  map (fun a => (a + c)%float) v.

(** Modelled from the spec: [BMO_MATOPS_IS_FINITE], the finiteness check:
    no entry is a NaN or an infinity. *)
Definition BMO_MATOPS_IS_FINITE (v : Vec_t) : bool :=
  forallb PrimFloat.is_finite v.

(** The main diagonal of a matrix stored by rows, from row [i] on. *)
Fixpoint diag_from (i : nat) (m : Mat_t) : Vec_t :=
  match m with
  | [] => []
  | row :: m' => nth i row 0%float :: diag_from (S i) m'
  end.

(** Modelled from the spec: [BMO_MATOPS_EXTRACT_DIAG], the diagonal
    extraction. *)
Definition BMO_MATOPS_EXTRACT_DIAG (m : Mat_t) : Vec_t := diag_from 0 m.

(** Modelled from the spec: sequential-sum versions of the two norms
    [BMO_MATOPS_L2NORM] and [BMO_MATOPS_L1NORM]. The order of summation is
    the layer's business, so the driver takes the norms as parameters and
    these two serve the concrete runs only. *)
Definition l2norm_seq (v : Vec_t) : float :=
  PrimFloat.sqrt (fold_left (fun s a => (s + a * a)%float) v 0%float).

Definition l1norm_seq (v : Vec_t) : float :=
  fold_left (fun s a => (s + PrimFloat.abs a)%float) v 0%float.

(** Modelled from the spec: the "per-coordinate max" magnitude measure of
    section 4.4, the largest absolute entry; a NaN entry is skipped by the
    comparison. *)
Definition linfnorm (v : Vec_t) : float :=
  fold_left
    (fun s a => if (s <? PrimFloat.abs a)%float then PrimFloat.abs a else s)
    v 0%float.

End Matops.
Import Matops.

(** ** [size_t] *)

Definition size_t_modulus : N := 2 ^ 64.

(** [++iter] on a [size_t]. *)
Definition size_t_incr (i : N) : N := ((i + 1) mod size_t_modulus)%N.

(** The literal [1.0e-08] of the relative-change denominator, as the
    binary64 value the compiler reads it to. *)
Definition rel_sol_change_floor : float := 0x1.5798ee2308c3ap-27%float.

(** ** Sign classes of a binary64 value *)

(** Non-NaN and not negative: [+0], [-0], a positive finite number or
    [+infinity]. *)
Definition SFnonneg (x : spec_float) : bool :=
  match x with
  | S754_zero _ => true
  | S754_infinity s => negb s
  | S754_nan => false
  | S754_finite s _ _ => negb s
  end.

(** Strictly positive: a positive finite number or [+infinity]. *)
Definition SFpositive (x : spec_float) : bool :=
  match x with
  | S754_infinity s => negb s
  | S754_finite s _ _ => negb s
  | _ => false
  end.

(** ** The state monad of the driver *)

Section StateMonad.
Variable W : Type.

Definition M (A : Type) : Type := W -> A * W.

Definition ret {A : Type} (a : A) : M A := fun w => (a, w).

Definition bind {A B : Type} (m : M A) (k : A -> M B) : M B :=
  fun w => let (a, w') := m w in k a w'.
End StateMonad.

Arguments ret {W A} a.
Arguments bind {W A B} m k.

Declare Scope gd_monad_scope.
Delimit Scope gd_monad_scope with gdm.
Notation "x <- m ;; k" := (bind m (fun x => k))
  (at level 61, m at next level, right associativity) : gd_monad_scope.
Notation "' p <- m ;; k" := (bind m (fun v => let p := v in k))
  (at level 61, p pattern, m at next level, right associativity) : gd_monad_scope.

(** ** Settings

    The two structures are declared in headers outside [gd.cpp]. The
    fields below are the ones [gd.cpp] reads, at the types it reads them
    at (lines 51-63, 112, 116 and 157); the remaining hyper-parameters are
    carried as [gd_params] and [algo_params]. *)

Record gd_settings_t (GdParams : Type) := {
  method : Z;
  clip_grad : bool;
  gd_params : GdParams
}.
Arguments method {GdParams} _.
Arguments clip_grad {GdParams} _.
Arguments gd_params {GdParams} _.

Record algo_settings_t (GdParams AlgoParams : Type) := {
  print_level : Z;
  conv_failure_switch : N;
  iter_max : N;
  grad_err_tol : float;
  rel_sol_change_tol : float;
  gd_settings : gd_settings_t GdParams;
  vals_bound : bool;
  lower_bounds : Vec_t;
  upper_bounds : Vec_t;
  algo_params : AlgoParams
}.
Arguments print_level {GdParams AlgoParams} _.
Arguments conv_failure_switch {GdParams AlgoParams} _.
Arguments iter_max {GdParams AlgoParams} _.
Arguments grad_err_tol {GdParams AlgoParams} _.
Arguments rel_sol_change_tol {GdParams AlgoParams} _.
Arguments gd_settings {GdParams AlgoParams} _.
Arguments vals_bound {GdParams AlgoParams} _.
Arguments lower_bounds {GdParams AlgoParams} _.
Arguments upper_bounds {GdParams AlgoParams} _.
Arguments algo_params {GdParams AlgoParams} _.

(** ** The caller's objective and the world it acts on *)

(** [opt_objfn(vals_inp, grad_out, opt_data)]: [grad_out] is [None] for a
    null pointer and [Some g] for a pointer to a vector holding [g]. The
    function returns the objective value, the contents it leaves in
    [*grad_out] (ignored for a null pointer) and the new contents of the
    data behind [opt_data]. *)
Definition objfn_t (UserData : Type) : Type :=
  Vec_t -> option Vec_t -> UserData -> float * Vec_t * UserData.

Record World (UserData : Type) := {
  opt_data : UserData;
  (** every invocation of the caller's objective, oldest first *)
  objfn_calls : list (Vec_t * option Vec_t)
}.
Arguments opt_data {UserData} _.
Arguments objfn_calls {UserData} _.

(** A callable with the signature of the objective, acting on the world:
    the value and the contents of [*grad_out] after the call. *)
Definition objfn_handle (UserData : Type) : Type :=
  Vec_t -> option Vec_t -> M (World UserData) (float * option Vec_t).

(** The vector a gradient pointer designates after a call. *)
Definition deref (before : Vec_t) (after : option Vec_t) : Vec_t :=
  match after with
  | Some g => g
  | None => before
  end.

(** ** Collaborators outside [gd.cpp] *)

Record collaborators (GdParams AlgoParams UserData : Type) := {
  BMO_MATOPS_L2NORM : Vec_t -> float;
  BMO_MATOPS_L1NORM : Vec_t -> float;
  (** contents of a vector constructed as [Vec_t grad(n_vals)] *)
  fresh_vec : nat -> Vec_t;
  (** a default-constructed [algo_settings_t] *)
  default_settings : algo_settings_t GdParams AlgoParams;
  determine_bounds_type : bool -> nat -> Vec_t -> Vec_t -> VecInt_t;
  transform : Vec_t -> VecInt_t -> Vec_t -> Vec_t -> Vec_t;
  inv_transform : Vec_t -> VecInt_t -> Vec_t -> Vec_t -> Vec_t;
  jacobian_adjust : Vec_t -> VecInt_t -> Vec_t -> Vec_t -> Mat_t;
  (** [gd_update(vals_inp, grad, grad_p, direc, box_objfn, opt_data, iter,
      gd_settings, adam_vec_m, adam_vec_v)]: the step, and the settings and
      the two accumulators, which it receives by reference, as it leaves
      them. *)
  gd_update :
    Vec_t -> Vec_t -> Vec_t -> Vec_t -> objfn_handle UserData -> N ->
    gd_settings_t GdParams -> Vec_t -> Vec_t ->
    M (World UserData) (Vec_t * gd_settings_t GdParams * Vec_t * Vec_t);
  (** [gradient_clipping(grad_, gd_settings)]: the gradient as it leaves it. *)
  gradient_clipping : Vec_t -> gd_settings_t GdParams -> Vec_t;
  (** [error_reporting(out_vals, x_p, opt_objfn, opt_data, success, err,
      err_tol, iter, iter_max, conv_failure_switch, settings_inp)]: the
      contents it leaves in [out_vals], [success] and [*settings_inp]. *)
  error_reporting :
    Vec_t -> Vec_t -> objfn_handle UserData -> bool -> float -> float ->
    N -> N -> N -> option (algo_settings_t GdParams AlgoParams) ->
    M (World UserData) (Vec_t * bool * option (algo_settings_t GdParams AlgoParams))
}.
Arguments BMO_MATOPS_L2NORM {GdParams AlgoParams UserData} _.
Arguments BMO_MATOPS_L1NORM {GdParams AlgoParams UserData} _.
Arguments fresh_vec {GdParams AlgoParams UserData} _.
Arguments default_settings {GdParams AlgoParams UserData} _.
Arguments determine_bounds_type {GdParams AlgoParams UserData} _.
Arguments transform {GdParams AlgoParams UserData} _.
Arguments inv_transform {GdParams AlgoParams UserData} _.
Arguments jacobian_adjust {GdParams AlgoParams UserData} _.
Arguments gd_update {GdParams AlgoParams UserData} _.
Arguments gradient_clipping {GdParams AlgoParams UserData} _.
Arguments error_reporting {GdParams AlgoParams UserData} _.

(** ** The driver *)

(** The state of the iteration loop: the locals that live across
    iterations, among them the local copy [gd_settings] that [gd_update]
    receives by reference. *)
Record gd_state (GdParams : Type) := {
  st_x : Vec_t;
  st_d : Vec_t;
  st_grad : Vec_t;
  st_grad_p : Vec_t;
  st_grad_err : float;
  st_rel_sol_change : float;
  st_iter : N;
  st_gd_settings : gd_settings_t GdParams;
  st_adam_vec_m : Vec_t;
  st_adam_vec_v : Vec_t
}.
Arguments st_x {GdParams} _.
Arguments st_d {GdParams} _.
Arguments st_grad {GdParams} _.
Arguments st_grad_p {GdParams} _.
Arguments st_grad_err {GdParams} _.
Arguments st_rel_sol_change {GdParams} _.
Arguments st_iter {GdParams} _.
Arguments st_gd_settings {GdParams} _.
Arguments st_adam_vec_m {GdParams} _.
Arguments st_adam_vec_v {GdParams} _.

(** What a run leaves behind: the returned flag, the contents of
    [init_out_vals] and of [*settings_inp], and the number of iterations
    the loop performed (the value of [iter] when the run ends). *)
Record gd_result (GdParams AlgoParams : Type) := {
  res_success : bool;
  res_out_vals : Vec_t;
  res_settings : option (algo_settings_t GdParams AlgoParams);
  res_iter : N
}.
Arguments res_success {GdParams AlgoParams} _.
Arguments res_out_vals {GdParams AlgoParams} _.
Arguments res_settings {GdParams AlgoParams} _.
Arguments res_iter {GdParams AlgoParams} _.

(** Lines 109-119: the accumulators [(adam_vec_m, adam_vec_v)]; a
    default-constructed [Vec_t] is empty. *)
Definition init_adam_vecs (method : Z) (n_vals : nat) : Vec_t * Vec_t :=
  let adam_vec_m : Vec_t := [] in
  let adam_vec_v : Vec_t := [] in
  let adam_vec_v :=
    if (method =? 3)%Z || (method =? 4)%Z
    then BMO_MATOPS_ZERO_VEC n_vals else adam_vec_v in
  if (method =? 5)%Z || (method =? 6)%Z || (method =? 7)%Z
  then (BMO_MATOPS_ZERO_VEC n_vals, BMO_MATOPS_ZERO_VEC n_vals)
  else (adam_vec_m, adam_vec_v).

Section Driver.
Context {GdParams AlgoParams UserData : Type}.
Variable E : collaborators GdParams AlgoParams UserData.
Variable opt_objfn : objfn_t UserData.

Local Abbreviation settings_t := (algo_settings_t GdParams AlgoParams).
Local Abbreviation world := (World UserData).
Local Abbreviation state := (gd_state GdParams).
Local Open Scope gd_monad_scope.

(** One invocation of the caller's objective. *)
Definition invoke_objfn : objfn_handle UserData :=
  fun vals_inp grad_out w =>
    let '(r, g, u) := opt_objfn vals_inp grad_out (opt_data w) in
    ((r, option_map (fun _ => g) grad_out),
     {| opt_data := u;
        objfn_calls := objfn_calls w ++ [(vals_inp, grad_out)] |}).

(** Lines 69-96: the lambda for box constraints. *)
Definition box_objfn (vals_bound : bool) (bounds_type : VecInt_t)
    (lower_bounds upper_bounds : Vec_t) : objfn_handle UserData :=
  fun vals_inp grad_out =>
    if vals_bound then
      let vals_inv_trans :=
        inv_transform E vals_inp bounds_type lower_bounds upper_bounds in
      match grad_out with
      | Some g =>
          let grad_obj := g in
          '(r, grad_after) <- invoke_objfn vals_inv_trans (Some grad_obj) ;;
          let grad_obj := deref grad_obj grad_after in
          let jacob_vec :=
            BMO_MATOPS_EXTRACT_DIAG
              (jacobian_adjust E vals_inp bounds_type lower_bounds upper_bounds) in
          ret (r, Some (BMO_MATOPS_HADAMARD_PROD jacob_vec grad_obj))
      | None =>
          '(r, _) <- invoke_objfn vals_inv_trans None ;;
          ret (r, None)
      end
    else invoke_objfn vals_inp grad_out.

Section Run.
(** The settings in force and the bound classification of the run. *)
Variable settings : settings_t.
Variable bounds_type : VecInt_t.

Definition run_box_objfn : objfn_handle UserData :=
  box_objfn (vals_bound settings) bounds_type
    (lower_bounds settings) (upper_bounds settings).

(** Line 164. *)
Definition rel_sol_change_of (x_p x : Vec_t) : float :=
  BMO_MATOPS_L1NORM E
    (BMO_MATOPS_ARRAY_DIV_ARRAY (vec_sub x_p x)
       (BMO_MATOPS_ARRAY_ADD_SCALAR (BMO_MATOPS_ABS x) rel_sol_change_floor)).

(** Lines 157-159: the clipping of the post-step gradient. *)
Definition clip_post_step (gd_settings : gd_settings_t GdParams)
    (grad_p : Vec_t) : Vec_t :=
  if clip_grad gd_settings
  then gradient_clipping E grad_p gd_settings
  else grad_p.

(** Line 144: the loop condition. *)
Definition loop_guard (s : state) : bool :=
  (grad_err_tol settings <? st_grad_err s)%float
  && (rel_sol_change_tol settings <? st_rel_sol_change s)%float
  && (st_iter s <? iter_max settings)%N.

(** Lines 145-171: the loop body. *)
Definition gd_iteration (s : state) : M world state :=
  let iter := size_t_incr (st_iter s) in
  '(d_p, gd_settings, adam_vec_m, adam_vec_v) <-
    gd_update E (st_x s) (st_grad s) (st_grad_p s) (st_d s) run_box_objfn
      iter (st_gd_settings s) (st_adam_vec_m s) (st_adam_vec_v s) ;;
  let x_p := vec_sub (st_x s) d_p in
  let grad := st_grad_p s in
  '(_, grad_after) <- run_box_objfn x_p (Some (st_grad_p s)) ;;
  let grad_p := clip_post_step gd_settings (deref (st_grad_p s) grad_after) in
  ret {| st_x := x_p;
         st_d := d_p;
         st_grad := grad;
         st_grad_p := grad_p;
         st_grad_err := BMO_MATOPS_L2NORM E grad_p;
         st_rel_sol_change := rel_sol_change_of x_p (st_x s);
         st_iter := iter;
         st_gd_settings := gd_settings;
         st_adam_vec_m := adam_vec_m;
         st_adam_vec_v := adam_vec_v |}.

(** Lines 144-172: the [while] loop; [None] when [fuel] iterations do
    not reach a state that fails the condition. *)
Fixpoint gd_loop (fuel : nat) (s : state) (w : world)
    : option (state * world) :=
  if loop_guard s then
    match fuel with
    | O => None
    | S fuel' => let (s', w') := gd_iteration s w in gd_loop fuel' s' w'
    end
  else Some (s, w).

(** The state after [n] executions of the loop body. *)
Fixpoint gd_iterations (n : nat) (s : state) (w : world)
    : state * world :=
  match n with
  | O => (s, w)
  | S n' => let (s', w') := gd_iteration s w in gd_iterations n' s' w'
  end.

(** Lines 106-128: the working point, the accumulators and the initial
    gradient. *)
Definition gd_init (init_out_vals : Vec_t) : M world state :=
  let n_vals := BMO_MATOPS_SIZE init_out_vals in
  let x := init_out_vals in
  let d := BMO_MATOPS_ZERO_VEC n_vals in
  let '(adam_vec_m, adam_vec_v) :=
    init_adam_vecs (method (gd_settings settings)) n_vals in
  let x :=
    if vals_bound settings
    then transform E x bounds_type (lower_bounds settings) (upper_bounds settings)
    else x in
  let grad := fresh_vec E n_vals in
  '(_, grad_after) <- run_box_objfn x (Some grad) ;;
  let grad := deref grad grad_after in
  ret {| st_x := x;
         st_d := d;
         st_grad := grad;
         st_grad_p := grad;
         st_grad_err := BMO_MATOPS_L2NORM E grad;
         st_rel_sol_change := 1%float;
         st_iter := 0%N;
         st_gd_settings := gd_settings settings;
         st_adam_vec_m := adam_vec_m;
         st_adam_vec_v := adam_vec_v |}.

(** Lines 176-186: the way out of the loop. *)
Definition gd_finish (init_out_vals : Vec_t)
    (settings_inp : option settings_t) (s : state)
    : M world (gd_result GdParams AlgoParams) :=
  let success := false in
  let x :=
    if vals_bound settings
    then inv_transform E (st_x s) bounds_type
           (lower_bounds settings) (upper_bounds settings)
    else st_x s in
  '(out_vals, success, settings_out) <-
    error_reporting E init_out_vals x invoke_objfn success
      (st_grad_err s) (grad_err_tol settings) (st_iter s)
      (iter_max settings) (conv_failure_switch settings) settings_inp ;;
  ret {| res_success := success;
         res_out_vals := out_vals;
         res_settings := settings_out;
         res_iter := st_iter s |}.
End Run.

(** Lines 45-49: the settings in force. *)
Definition settings_of (settings_inp : option settings_t) : settings_t :=
  match settings_inp with
  | Some s => s
  | None => default_settings E
  end.

(** Line 65: the bound classification of the run. *)
Definition bounds_type_of (settings : settings_t) (init_out_vals : Vec_t)
    : VecInt_t :=
  determine_bounds_type E (vals_bound settings)
    (BMO_MATOPS_SIZE init_out_vals)
    (lower_bounds settings) (upper_bounds settings).

(** [optim::internal::gd_basic_impl]. *)
Definition gd_basic_impl (fuel : nat) (init_out_vals : Vec_t)
    (settings_inp : option settings_t) (w : world)
    : option (gd_result GdParams AlgoParams * world) :=
  let settings := settings_of settings_inp in
  let bounds_type := bounds_type_of settings init_out_vals in
  if negb (BMO_MATOPS_IS_FINITE init_out_vals) then
    Some ({| res_success := false;
             res_out_vals := init_out_vals;
             res_settings := settings_inp;
             res_iter := 0%N |}, w)
  else
    let (s0, w0) := gd_init settings bounds_type init_out_vals w in
    if (st_grad_err s0 <=? grad_err_tol settings)%float then
      Some ({| res_success := true;
               res_out_vals := init_out_vals;
               res_settings := settings_inp;
               res_iter := 0%N |}, w0)
    else
      match gd_loop settings bounds_type fuel s0 w0 with
      | None => None
      | Some (s, w1) =>
          Some (gd_finish settings bounds_type init_out_vals settings_inp s w1)
      end.

(** [optim::gd], the overload without settings. *)
Definition gd (fuel : nat) (init_out_vals : Vec_t) (w : world) :=
  gd_basic_impl fuel init_out_vals None w.

(** [optim::gd], the overload with settings. *)
Definition gd_with_settings (fuel : nat) (init_out_vals : Vec_t)
    (settings : settings_t) (w : world) :=
  gd_basic_impl fuel init_out_vals (Some settings) w.

End Driver.


(** ** The gradient clipper of the spec *)

(** Modelled from the spec: [gradient_clipping] is declared outside
    [gd.cpp]. Section 4.4 gives its contract: it "rescales or caps the
    vector so that a configured magnitude measure (overall norm, or
    per-coordinate max) does not exceed the threshold". [measure] is the
    configured magnitude measure and [threshold] the configured threshold,
    both read from the clipping configuration; a threshold is a magnitude,
    so the contract speaks of thresholds that are not negative. *)
Definition clipping_contract {GdParams : Type}
    (clip : Vec_t -> gd_settings_t GdParams -> Vec_t)
    (measure : gd_settings_t GdParams -> Vec_t -> float)
    (threshold : gd_settings_t GdParams -> float) : Prop :=
  forall (g : Vec_t) (cfg : gd_settings_t GdParams),
    (0 <=? threshold cfg)%float = true ->
    (threshold cfg <? measure cfg (clip g cfg))%float = false.

(** Modelled from the spec: a clipper of the "caps ... per-coordinate max"
    kind of section 4.4. Every coordinate is capped to [[-bound, bound]]. *)
Definition cap_coordinate (bound a : float) : float :=
  if (bound <? a)%float then bound
  else if (a <? - bound)%float then (- bound)%float
  else a.

(** Modelled from the spec: the capping clipper applied to a gradient. *)
Definition cap_gradient (bound : float) (g : Vec_t) : Vec_t :=
  map (cap_coordinate bound) g.

(** ** A concrete run-time environment

    Modelled from the spec: one instance of the collaborators, which are
    all defined outside [gd.cpp], used to run the driver on concrete
    inputs. It has sequential norms, unbounded coordinates (for which
    section 4.1 makes the transform the identity), the plain update rule
    of section 4.3 (a fixed learning-rate multiple of the current
    gradient), the capping clipper, and a reporter that accepts the final
    point when the gradient criterion holds. *)

Module Sample.

Record gd_params_t := {
  par_step_size : float;
  clip_norm_bound : float
}.

Definition gd_cfg := gd_settings_t gd_params_t.
Definition settings_t := algo_settings_t gd_params_t unit.

Definition clip_threshold (cfg : gd_cfg) : float :=
  clip_norm_bound (gd_params cfg).

Definition clip_measure (_ : gd_cfg) (g : Vec_t) : float := linfnorm g.

Definition cap_clipping (g : Vec_t) (cfg : gd_cfg) : Vec_t :=
  cap_gradient (clip_threshold cfg) g.

Definition plain_update {U : Type} (vals_inp grad grad_p direc : Vec_t)
    (box : objfn_handle U) (iter : N) (cfg : gd_cfg)
    (adam_vec_m adam_vec_v : Vec_t)
    : M (World U) (Vec_t * gd_cfg * Vec_t * Vec_t) :=
  ret (map (fun g => (par_step_size (gd_params cfg) * g)%float) grad_p,
       cfg, adam_vec_m, adam_vec_v).

Definition identity_matrix_row (n i : nat) : list float :=
  map (fun j => if Nat.eqb i j then 1%float else 0%float) (seq 0 n).

Definition report {U : Type} (out_vals x_p : Vec_t) (f : objfn_handle U)
    (success : bool) (err err_tol : float) (iter iter_max switch : N)
    (settings_inp : option settings_t)
    : M (World U) (Vec_t * bool * option settings_t) :=
  if (err <=? err_tol)%float
  then ret (x_p, true, settings_inp)
  else ret (if (switch =? 0)%N then out_vals else x_p, false, settings_inp).

Definition defaults : settings_t :=
  {| print_level := 0;
     conv_failure_switch := 0;
     iter_max := 2000;
     grad_err_tol := 0x1p-27%float;
     rel_sol_change_tol := 0x1p-47%float;
     gd_settings :=
       {| method := 0; clip_grad := false;
          gd_params := {| par_step_size := 0x1p-3%float;
                          clip_norm_bound := 1%float |} |};
     vals_bound := false;
     lower_bounds := [];
     upper_bounds := [];
     algo_params := tt |}.

Definition env (U : Type) : collaborators gd_params_t unit U :=
  {| BMO_MATOPS_L2NORM := l2norm_seq;
     BMO_MATOPS_L1NORM := l1norm_seq;
     fresh_vec := BMO_MATOPS_ZERO_VEC;
     default_settings := defaults;
     determine_bounds_type := fun _ n _ _ => repeat 1%Z n;
     transform := fun x _ _ _ => x;
     inv_transform := fun x _ _ _ => x;
     jacobian_adjust :=
       fun x _ _ _ => map (identity_matrix_row (length x)) (seq 0 (length x));
     gd_update := plain_update;
     gradient_clipping := cap_clipping;
     error_reporting := report |}.

(** The objective [f(x) = sum_i x_i^2] with gradient [2 x]; the data
    behind [opt_data] counts the evaluations. *)
Definition sum_of_squares : objfn_t nat :=
  fun vals grad_out count =>
    (fold_left (fun s a => (s + a * a)%float) vals 0%float,
     map (fun a => (2 * a)%float) vals,
     S count).

Definition start : World nat := {| opt_data := 0; objfn_calls := [] |}.

(** Settings of the runs below: method [code], a step size, an iteration
    cap, the clipping flag (with bound one half) and the bounds flag
    (with infinite bounds, so every coordinate is unbounded). *)
Definition run_settings (code : Z) (step : float) (cap : N)
    (clip bound : bool) : settings_t :=
  {| print_level := 0;
     conv_failure_switch := 0;
     iter_max := cap;
     grad_err_tol := 0x1p-20%float;
     rel_sol_change_tol := 0x1p-47%float;
     gd_settings :=
       {| method := code; clip_grad := clip;
          gd_params := {| par_step_size := step;
                          clip_norm_bound := 0x1p-1%float |} |};
     vals_bound := bound;
     lower_bounds := [neg_infinity; neg_infinity];
     upper_bounds := [infinity; infinity];
     algo_params := tt |}.

(** The environment and objective of the runs, and the settings, bound
    classification and starting state of a clipped, bounded run from
    [(1, 1)]. *)
Definition run_env := env nat.
Definition clipped := run_settings 0 0x1p-3%float 100 true true.
Definition bt := bounds_type_of run_env clipped [1; 1]%float.
Definition s0 :=
  fst (gd_init run_env sum_of_squares clipped bt [1; 1]%float start).
Definition w0 :=
  snd (gd_init run_env sum_of_squares clipped bt [1; 1]%float start).

End Sample.

(** ** Further run-time environments

    Instances for the runs that exercise the edge behaviour of the driver:
    objectives that return NaN gradients, a tolerance of one, and an
    environment whose inverse transform lands in the unit box. *)

Module Edge.

(** An objective whose gradient is NaN in every coordinate. *)
Definition nan_gradient : objfn_t nat :=
  fun vals grad_out count =>
    (0%float, map (fun _ => nan) vals, S count).

(** An objective whose first evaluation returns the gradient [2 x] and
    every later one a NaN gradient; the data behind [opt_data] counts the
    evaluations. *)
Definition flaky_gradient : objfn_t nat :=
  fun vals grad_out count =>
    (0%float,
     if Nat.eqb count 0
     then map (fun a => (2 * a)%float) vals
     else map (fun _ => nan) vals,
     S count).

(** Settings with a relative-change tolerance of one. *)
Definition loose_settings : Sample.settings_t :=
  {| print_level := 0;
     conv_failure_switch := 0;
     iter_max := 100;
     grad_err_tol := 0x1p-20%float;
     rel_sol_change_tol := 1%float;
     gd_settings :=
       {| method := 0; clip_grad := false;
          gd_params := {| Sample.par_step_size := 0x1p-3%float;
                          Sample.clip_norm_bound := 0x1p-1%float |} |};
     vals_bound := false;
     lower_bounds := [];
     upper_bounds := [];
     algo_params := tt |}.

(** Every coordinate lies in [[-1, 1]] or is a NaN. *)
Definition inside_unit_box (x : Vec_t) : Prop :=
  Forall (fun a => (1 <? abs a)%float = false) x.

(** The environment of [Sample], except that the inverse transform caps
    every coordinate into the unit box. *)
Definition boxed_env : collaborators Sample.gd_params_t unit nat :=
  {| BMO_MATOPS_L2NORM := l2norm_seq;
     BMO_MATOPS_L1NORM := l1norm_seq;
     fresh_vec := BMO_MATOPS_ZERO_VEC;
     default_settings := Sample.defaults;
     determine_bounds_type := fun _ n _ _ => repeat 4%Z n;
     transform := fun x _ _ _ => x;
     inv_transform := fun x _ _ _ => cap_gradient 1%float x;
     jacobian_adjust :=
       fun x _ _ _ =>
         map (Sample.identity_matrix_row (length x)) (seq 0 (length x));
     gd_update := Sample.plain_update;
     gradient_clipping := Sample.cap_clipping;
     error_reporting := Sample.report |}.

End Edge.

(** * Facts about binary64 arithmetic

    Derived from the specification of the primitive operations
    ([SpecFloat], [FloatAxioms]). *)

Module FloatFacts.

Section Rounding.
Variables prec emax : Z.
Hypothesis prec_pos : (0 < prec)%Z.

Local Abbreviation emin := (SpecFloat.emin prec emax).
Local Abbreviation fexp := (SpecFloat.fexp prec emax).

Lemma digits2_pos_lower (m : positive) :
  (2 ^ (Zpos (digits2_pos m) - 1) <= Zpos m)%Z.
Proof.
  induction m as [m IH | m IH | ]; cbn [digits2_pos].
  - rewrite Pos2Z.inj_succ.
    replace (Z.succ (Zpos (digits2_pos m)) - 1)%Z
      with (Z.succ (Zpos (digits2_pos m) - 1))%Z by lia.
    rewrite Z.pow_succ_r by lia. lia.
  - rewrite Pos2Z.inj_succ.
    replace (Z.succ (Zpos (digits2_pos m)) - 1)%Z
      with (Z.succ (Zpos (digits2_pos m) - 1))%Z by lia.
    rewrite Z.pow_succ_r by lia. lia.
  - cbn. lia.
Qed.

Lemma shr_1_m (mrs : shr_record) :
  (0 <= shr_m mrs)%Z -> shr_m (shr_1 mrs) = (shr_m mrs / 2)%Z.
Proof.
  destruct mrs as [m r s]; cbn [shr_m shr_1]; intros Hm.
  destruct m as [ | [p | p | ] | p]; cbn [shr_m]; try lia; try reflexivity.
  - apply Z.div_unique with (r := 1%Z); lia.
  - apply Z.div_unique with (r := 0%Z); lia.
Qed.

Lemma shr_m_iter (p : positive) :
  forall mrs : shr_record,
    (0 <= shr_m mrs)%Z ->
    shr_m (iter_pos shr_1 p mrs) = (shr_m mrs / 2 ^ Zpos p)%Z.
Proof.
  induction p as [p IH | p IH | ]; intros mrs Hm; cbn [iter_pos].
  - assert (Hp : (0 < 2 ^ Zpos p)%Z) by (apply Z.pow_pos_nonneg; lia).
    assert (H1 : (0 <= shr_m (shr_1 mrs))%Z).
    { rewrite shr_1_m by assumption. apply Z.div_pos; lia. }
    assert (H2 : (0 <= shr_m (iter_pos shr_1 p (shr_1 mrs)))%Z).
    { rewrite IH by assumption. apply Z.div_pos; assumption. }
    rewrite (IH _ H2), (IH _ H1), shr_1_m by assumption.
    rewrite !Z.div_div by lia.
    f_equal.
    replace (Zpos p~1) with (1 + Zpos p + Zpos p)%Z by lia.
    rewrite !Z.pow_add_r by lia. lia.
  - assert (Hp : (0 < 2 ^ Zpos p)%Z) by (apply Z.pow_pos_nonneg; lia).
    assert (H2 : (0 <= shr_m (iter_pos shr_1 p mrs))%Z).
    { rewrite IH by assumption. apply Z.div_pos; assumption. }
    rewrite (IH _ H2), (IH _ Hm).
    rewrite Z.div_div by lia.
    f_equal.
    replace (Zpos p~0) with (Zpos p + Zpos p)%Z by lia.
    rewrite Z.pow_add_r by lia. reflexivity.
  - rewrite shr_1_m by assumption. reflexivity.
Qed.

Lemma shr_record_of_loc_m (m : Z) (l : location) :
  shr_m (shr_record_of_loc m l) = m.
Proof. destruct l as [ | [ | | ]]; reflexivity. Qed.

(** Shifting a positive mantissa to its canonical exponent leaves a
    positive mantissa, when the exponent is not below [emin]. *)
Lemma shr_fexp_positive (m e : Z) (l : location) :
  (0 < m)%Z -> (emin <= e)%Z ->
  (0 < shr_m (fst (shr_fexp prec emax m e l)))%Z
  /\ (emin <= snd (shr_fexp prec emax m e l))%Z.
Proof.
  intros Hm He. unfold shr_fexp, shr.
  destruct m as [ | p | p]; try lia. cbn [Zdigits2].
  destruct (fexp (Zpos (digits2_pos p) + e) - e)%Z as [ | q | q] eqn:Hn;
    cbn [fst snd]; rewrite ?shr_record_of_loc_m; try lia.
  split; [ | lia].
  rewrite shr_m_iter by (rewrite shr_record_of_loc_m; lia).
  rewrite shr_record_of_loc_m.
  apply Z.div_str_pos. split; [apply Z.pow_pos_nonneg; lia | ].
  apply Z.le_trans with (2 := digits2_pos_lower p).
  apply Z.pow_le_mono_r; [lia | ].
  unfold SpecFloat.fexp in Hn. lia.
Qed.

Lemma round_nearest_even_ge (m : Z) (l : location) :
  (m <= round_nearest_even m l)%Z.
Proof.
  destruct l as [ | [ | | ]]; cbn [round_nearest_even]; try lia.
  destruct (Z.even m); lia.
Qed.

(** Rounding a positive mantissa at an exponent not below [emin] never
    yields a zero, a NaN or a negative number. *)
Lemma binary_round_aux_positive (mx ex : Z) (lx : location) :
  (0 < mx)%Z -> (emin <= ex)%Z ->
  SFpositive (binary_round_aux prec emax false mx ex lx) = true.
Proof.
  intros Hm He. unfold binary_round_aux.
  destruct (shr_fexp_positive mx ex lx Hm He) as [H1 H1e].
  destruct (shr_fexp prec emax mx ex lx) as [mrs' e'].
  cbn [fst snd] in H1, H1e.
  pose proof (round_nearest_even_ge (shr_m mrs') (loc_of_shr_record mrs')) as Hr.
  assert (H2 : (0 < round_nearest_even (shr_m mrs') (loc_of_shr_record mrs'))%Z) by lia.
  destruct (shr_fexp_positive _ e' loc_Exact H2 H1e) as [H3 _].
  destruct (shr_fexp prec emax _ e' loc_Exact) as [mrs'' e''].
  cbn [fst] in H3.
  destruct (shr_m mrs'') as [ | m | m]; try lia.
  destruct (e'' <=? emax - prec)%Z; reflexivity.
Qed.

Lemma shl_align_exponent (mx : positive) (ex ex' : Z) :
  (emin <= ex)%Z -> (emin <= ex')%Z ->
  (emin <= snd (shl_align mx ex ex'))%Z.
Proof.
  intros. unfold shl_align.
  destruct (ex' - ex)%Z; cbn [snd]; assumption.
Qed.

Lemma binary_round_positive (mx : positive) (ex : Z) :
  (emin <= ex)%Z ->
  SFpositive (binary_round prec emax false mx ex) = true.
Proof.
  intros He. unfold binary_round.
  pose proof (shl_align_exponent mx ex
                (fexp (Zpos (digits2_pos mx) + ex)) He) as Ha.
  destruct (shl_align mx ex (fexp (Zpos (digits2_pos mx) + ex))) as [mz ez].
  cbn [snd] in Ha.
  apply binary_round_aux_positive; [lia | ].
  apply Ha. unfold SpecFloat.fexp. lia.
Qed.

Lemma valid_binary_exponent (s : bool) (m : positive) (e : Z) :
  SpecFloat.valid_binary prec emax (S754_finite s m e) = true ->
  (emin <= e)%Z.
Proof.
  cbn [SpecFloat.valid_binary]. unfold bounded, canonical_mantissa.
  intros H. apply andb_prop in H. destruct H as [H _].
  apply Z.eqb_eq in H. unfold SpecFloat.fexp in H. lia.
Qed.

(** The sum of a number that is not negative and a positive finite
    number is strictly positive. *)
Lemma SFadd_positive (x y : spec_float) :
  SpecFloat.valid_binary prec emax x = true ->
  SpecFloat.valid_binary prec emax y = true ->
  SFnonneg x = true ->
  (exists my ey, y = S754_finite false my ey) ->
  SFpositive (SFadd prec emax x y) = true.
Proof.
  intros Vx Vy Hx (my & ey & ->).
  destruct x as [sx | sx | | sx mx ex]; cbn [SFnonneg] in Hx;
    try discriminate.
  - reflexivity.
  - destruct sx; [discriminate | reflexivity].
  - destruct sx; [discriminate | ].
    apply valid_binary_exponent in Vx, Vy.
    cbn [SFadd cond_Zopp Z.add binary_normalize].
    apply binary_round_positive. lia.
Qed.
Lemma shr_fexp_nonneg (m e : Z) (l : location) :
  (0 <= m)%Z -> (0 <= shr_m (fst (shr_fexp prec emax m e l)))%Z.
Proof.
  intros Hm. unfold shr_fexp, shr.
  destruct (fexp (Zdigits2 m + e) - e)%Z as [ | q | q];
    cbn [fst]; rewrite ?shr_record_of_loc_m; try assumption.
  rewrite shr_m_iter by (rewrite shr_record_of_loc_m; assumption).
  rewrite shr_record_of_loc_m.
  apply Z.div_pos; [assumption | apply Z.pow_pos_nonneg; lia].
Qed.

(** Rounding a mantissa that is not negative never yields a NaN. *)
Lemma binary_round_aux_not_nan (s : bool) (mx ex : Z) (lx : location) :
  (0 <= mx)%Z -> binary_round_aux prec emax s mx ex lx <> S754_nan.
Proof.
  intros Hm. unfold binary_round_aux.
  pose proof (shr_fexp_nonneg mx ex lx Hm) as H1.
  destruct (shr_fexp prec emax mx ex lx) as [mrs' e']. cbn [fst] in H1.
  pose proof (round_nearest_even_ge (shr_m mrs') (loc_of_shr_record mrs')) as Hr.
  assert (H2 : (0 <= round_nearest_even (shr_m mrs') (loc_of_shr_record mrs'))%Z)
    by lia.
  pose proof (shr_fexp_nonneg _ e' loc_Exact H2) as H3.
  destruct (shr_fexp prec emax _ e' loc_Exact) as [mrs'' e''].
  cbn [fst] in H3.
  destruct (shr_m mrs'') as [ | m | m]; try lia; try discriminate.
  destruct (e'' <=? emax - prec)%Z; discriminate.
Qed.

Lemma SFdiv_core_binary_nonneg (m1 m2 : positive) (e1 e2 : Z) :
  (0 <= fst (fst (SFdiv_core_binary prec emax (Zpos m1) e1 (Zpos m2) e2)))%Z.
Proof.
  unfold SFdiv_core_binary. cbv zeta.
  match goal with
  | |- context [Z.div_eucl ?a (Zpos m2)] =>
      assert (Ha : (0 <= a)%Z);
      [ | pose proof (Z.div_pos a (Zpos m2) Ha ltac:(lia)) as Hq;
          unfold Z.div in Hq;
          destruct (Z.div_eucl a (Zpos m2)) as [q r]; exact Hq]
  end.
  match goal with
  | |- context [match ?sh with Z0 => _ | Zpos _ => _ | Zneg _ => _ end] =>
      destruct sh eqn:Hs; try lia
  end.
  apply Z.shiftl_nonneg. lia.
Qed.

(** A quotient of a finite number by a strictly positive one is never
    a NaN. *)
Lemma SFdiv_not_nan (x y : spec_float) :
  (match x with S754_zero _ | S754_finite _ _ _ => true | _ => false end) = true ->
  SFpositive y = true ->
  SFdiv prec emax x y <> S754_nan.
Proof.
  intros Hx Hy.
  destruct x as [sx | sx | | sx mx ex]; try discriminate;
    destruct y as [sy | sy | | sy my ey]; try discriminate;
    cbn [SFdiv]; try discriminate.
  pose proof (SFdiv_core_binary_nonneg mx my ex ey) as Hq.
  destruct (SFdiv_core_binary prec emax (Zpos mx) ex (Zpos my) ey)
    as [[mz ez] lz]. cbn [fst] in Hq.
  apply binary_round_aux_not_nan. assumption.
Qed.
End Rounding.

(** *** Comparisons *)

Lemma SFcompare_refl (x : spec_float) :
  x <> S754_nan -> SFcompare x x = Some Eq.
Proof.
  destruct x as [s | s | | s m e]; intros H; try congruence;
    cbn [SFcompare]; try (destruct s; reflexivity).
  rewrite Z.compare_refl, Pos.compare_cont_refl. destruct s; reflexivity.
Qed.

Lemma SFltb_opp (x t : spec_float) :
  SFltb x (SFopp t) = SFltb t (SFopp x).
Proof.
  unfold SFltb.
  destruct x as [sx | sx | | sx mx ex], t as [st | st | | st mt et];
    cbn [SFopp SFcompare]; try reflexivity;
    try (destruct sx; reflexivity); try (destruct st; reflexivity);
    try (destruct sx, st; reflexivity).
  assert (Hp : Pos.compare_cont Eq mt mx = CompOpp (Pos.compare_cont Eq mx mt))
    by (symmetry; apply (Pos.compare_cont_antisym mx mt Eq)).
  destruct sx, st; cbn [negb]; try reflexivity;
    rewrite (Z.compare_antisym ex et), Hp;
    destruct (ex ?= et)%Z; cbn [CompOpp]; try reflexivity;
    destruct (Pos.compare_cont Eq mx mt); reflexivity.
Qed.

Lemma SFltb_abs_cases (t a : spec_float) :
  SFltb t (SFabs a) = SFltb t a \/ SFltb t (SFabs a) = SFltb t (SFopp a).
Proof.
  destruct a as [s | s | | s m e]; cbn [SFabs SFopp].
  - left. unfold SFltb. destruct t as [st | st | | st mt et], s; reflexivity.
  - destruct s; [right | left]; reflexivity.
  - left; reflexivity.
  - destruct s; [right | left]; reflexivity.
Qed.

Lemma SFleb_zero_nonneg (t : spec_float) :
  SFleb (S754_zero false) t = true -> SFnonneg t = true.
Proof.
  destruct t as [s | s | | s m e]; unfold SFleb; cbn [SFcompare SFnonneg];
    try reflexivity; try discriminate; destruct s; try reflexivity; discriminate.
Qed.

Lemma SFltb_abs_self (t : spec_float) :
  SFnonneg t = true ->
  SFltb t (SFabs t) = false /\ SFltb t (SFabs (SFopp t)) = false.
Proof.
  destruct t as [s | s | | s m e]; cbn [SFnonneg]; intros H;
    try discriminate; try (destruct s; try discriminate);
    unfold SFltb; cbn [SFabs SFopp SFcompare negb];
    rewrite ?Z.compare_refl, ?Pos.compare_cont_refl; split; reflexivity.
Qed.

Lemma SFltb_zero_nonneg (t : spec_float) :
  SFnonneg t = true -> SFltb t (S754_zero false) = false.
Proof.
  destruct t as [s | s | | s m e]; cbn [SFnonneg]; intros H;
    try discriminate; try (destruct s; try discriminate); reflexivity.
Qed.

Lemma SFltb_zero_positive (y : spec_float) :
  SFpositive y = true -> SFltb (S754_zero false) y = true.
Proof.
  destruct y as [s | s | | s m e]; cbn [SFpositive]; intros H;
    try discriminate; destruct s; try discriminate; reflexivity.
Qed.

(** *** The primitive operations *)

Local Open Scope float_scope.

Lemma Prim2SF_zero : Prim2SF 0 = S754_zero false.
Proof. reflexivity. Qed.

Lemma is_nan_false (x : float) :
  is_nan x = false -> Prim2SF x <> S754_nan.
Proof.
  unfold is_nan. rewrite eqb_spec. intros H E. rewrite E in H. discriminate.
Qed.

Lemma is_finite_not_nan (x : float) :
  is_finite x = true -> is_nan x = false.
Proof.
  unfold is_finite. intros H. apply negb_true_iff, orb_false_iff in H. tauto.
Qed.

Lemma abs_nonneg (x : float) :
  is_nan x = false -> SFnonneg (Prim2SF (abs x)) = true.
Proof.
  intros H. apply is_nan_false in H. rewrite abs_spec.
  destruct (Prim2SF x); try congruence; reflexivity.
Qed.

Lemma zero_leb_nonneg (t : float) :
  (0 <=? t) = true -> SFnonneg (Prim2SF t) = true.
Proof. rewrite leb_spec, Prim2SF_zero. apply SFleb_zero_nonneg. Qed.

(** Adding a positive finite constant to an absolute value gives a
    strictly positive result, whatever the rounding. *)
Lemma abs_plus_positive (x c : float) :
  is_nan x = false ->
  (exists m e, Prim2SF c = S754_finite false m e) ->
  (0 <? abs x + c) = true.
Proof.
  intros Hx Hc. rewrite ltb_spec, Prim2SF_zero, add_spec.
  apply SFltb_zero_positive. unfold SF64add.
  apply FloatFacts.SFadd_positive;
    [reflexivity | apply Prim2SF_valid | apply Prim2SF_valid
     | apply abs_nonneg; assumption | assumption].
Qed.

Lemma ltb_positive_not_zero (y : float) :
  (0 <? y) = true -> (y =? 0) = false.
Proof.
  rewrite ltb_spec, eqb_spec, Prim2SF_zero. unfold SFltb, SFeqb.
  destruct (Prim2SF y) as [s | s | | s m e]; cbn [SFcompare];
    try discriminate; destruct s; try discriminate; reflexivity.
Qed.

Lemma SFcompare_antisym (a b : spec_float) :
  SFcompare b a = option_map CompOpp (SFcompare a b).
Proof.
  destruct a as [sa | sa | | sa ma ea], b as [sb | sb | | sb mb eb];
    cbn [SFcompare option_map CompOpp]; try reflexivity;
    try (destruct sa; reflexivity); try (destruct sb; reflexivity);
    try (destruct sa, sb; reflexivity).
  assert (Hp : Pos.compare_cont Eq mb ma = CompOpp (Pos.compare_cont Eq ma mb))
    by (symmetry; apply (Pos.compare_cont_antisym ma mb Eq)).
  destruct sa, sb; try reflexivity;
    rewrite (Z.compare_antisym ea eb), Hp;
    destruct (ea ?= eb)%Z; cbn [CompOpp]; try reflexivity;
    destruct (Pos.compare_cont Eq ma mb); reflexivity.
Qed.

(** [a < b] excludes [b <= a]. *)
Lemma ltb_not_leb (a b : float) :
  (a <? b) = true -> (b <=? a) = false.
Proof.
  rewrite ltb_spec, leb_spec. unfold SFltb, SFleb.
  rewrite (SFcompare_antisym (Prim2SF a) (Prim2SF b)).
  destruct (SFcompare (Prim2SF a) (Prim2SF b)) as [[ | | ] | ];
    cbn [option_map CompOpp]; congruence.
Qed.

Lemma Prim2SF_infinity : Prim2SF infinity = S754_infinity false.
Proof. reflexivity. Qed.

Lemma is_finite_spec (a : float) :
  is_finite a = true ->
  (match Prim2SF a with
   | S754_zero _ | S754_finite _ _ _ => true
   | _ => false
   end) = true.
Proof.
  unfold is_finite, is_nan, is_infinity.
  rewrite !eqb_spec, abs_spec, Prim2SF_infinity.
  destruct (Prim2SF a) as [[ | ] | [ | ] | | s m e]; try reflexivity;
    cbn; intros H; discriminate.
Qed.

Lemma ltb_zero_positive (d : float) :
  (0 <? d) = true -> SFpositive (Prim2SF d) = true.
Proof.
  rewrite ltb_spec, Prim2SF_zero. unfold SFltb.
  destruct (Prim2SF d) as [s | s | | s m e]; cbn [SFcompare SFpositive];
    try discriminate; destruct s; try discriminate; reflexivity.
Qed.

(** Dividing a finite number by a strictly positive one does not
    produce a NaN. *)
Lemma div_by_positive_not_nan (a d : float) :
  is_finite a = true -> (0 <? d) = true -> is_nan (a / d) = false.
Proof.
  intros Ha Hd. unfold is_nan. rewrite eqb_spec, div_spec. unfold SFeqb.
  rewrite SFcompare_refl; [reflexivity | ].
  apply (SFdiv_not_nan prec emax);
    [apply is_finite_spec, Ha | apply ltb_zero_positive, Hd].
Qed.

End FloatFacts.

(** * Properties of the driver *)

Section DriverFacts.
Context {GdParams AlgoParams UserData : Type}.
Variable E : collaborators GdParams AlgoParams UserData.
Variable opt_objfn : objfn_t UserData.

Local Abbreviation settings_t := (algo_settings_t GdParams AlgoParams).
Local Abbreviation world := (World UserData).
Local Abbreviation state := (gd_state GdParams).

(** ** The objective adapter *)

Lemma invoke_objfn_eq (vals : Vec_t) (grad_out : option Vec_t) (w : world) :
  invoke_objfn opt_objfn vals grad_out w =
  (let '(r, g, u) := opt_objfn vals grad_out (opt_data w) in
   ((r, option_map (fun _ => g) grad_out),
    {| opt_data := u;
       objfn_calls := objfn_calls w ++ [(vals, grad_out)] |})).
Proof. reflexivity. Qed.

(** Whatever the bounds flag, the adapter invokes the caller's objective
    exactly once, with the gradient pointer it was given. *)
Lemma box_objfn_calls (vb : bool) (bt : VecInt_t) (lb ub vals : Vec_t)
    (grad_out : option Vec_t) (w : world) :
  objfn_calls (snd (box_objfn E opt_objfn vb bt lb ub vals grad_out w)) =
  objfn_calls w
    ++ [(if vb then inv_transform E vals bt lb ub else vals, grad_out)].
Proof.
  unfold box_objfn, invoke_objfn, bind, ret.
  destruct vb, grad_out as [g | ];
    destruct (opt_objfn _ _ (opt_data w)) as [[r g'] u]; reflexivity.
Qed.

(** Asked for a gradient, the adapter hands one back. *)
Lemma box_objfn_gradient (vb : bool) (bt : VecInt_t) (lb ub vals g : Vec_t)
    (w : world) :
  exists g', snd (fst (box_objfn E opt_objfn vb bt lb ub vals (Some g) w)) = Some g'.
Proof.
  unfold box_objfn, invoke_objfn, bind, ret.
  destruct vb; destruct (opt_objfn _ _ (opt_data w)) as [[r g'] u];
    eexists; reflexivity.
Qed.

(** C4. The objective adapter [box_objfn]. With bounds inactive it is the
    caller's objective, called with the same arguments. With bounds active
    it calls the caller's objective at the inverse-transformed input and
    returns its value unchanged; a requested gradient is replaced by its
    Hadamard product with the diagonal of [jacobian_adjust] taken at the
    working-space input [vals], and without a gradient request the
    objective is called with a null gradient pointer. *)
Theorem box_objfn_adapter (bt : VecInt_t) (lb ub vals g0 : Vec_t)
    (grad_out : option Vec_t) (w : world) :
  box_objfn E opt_objfn false bt lb ub vals grad_out w =
    (let '(r, g, u) := opt_objfn vals grad_out (opt_data w) in
     ((r, option_map (fun _ => g) grad_out),
      {| opt_data := u;
         objfn_calls := objfn_calls w ++ [(vals, grad_out)] |}))
  /\ box_objfn E opt_objfn true bt lb ub vals (Some g0) w =
    (let vals_inv_trans := inv_transform E vals bt lb ub in
     let '(r, g, u) := opt_objfn vals_inv_trans (Some g0) (opt_data w) in
     ((r, Some (BMO_MATOPS_HADAMARD_PROD
                  (BMO_MATOPS_EXTRACT_DIAG (jacobian_adjust E vals bt lb ub)) g)),
      {| opt_data := u;
         objfn_calls := objfn_calls w ++ [(vals_inv_trans, Some g0)] |}))
  /\ box_objfn E opt_objfn true bt lb ub vals None w =
    (let vals_inv_trans := inv_transform E vals bt lb ub in
     let '(r, _, u) := opt_objfn vals_inv_trans None (opt_data w) in
     ((r, None),
      {| opt_data := u;
         objfn_calls := objfn_calls w ++ [(vals_inv_trans, None)] |})).
Proof.
  unfold box_objfn, invoke_objfn, bind, ret. cbv zeta.
  repeat split.
  - destruct (opt_objfn (inv_transform E vals bt lb ub) (Some g0) (opt_data w))
      as [[r g] u]. reflexivity.
  - destruct (opt_objfn (inv_transform E vals bt lb ub) None (opt_data w))
      as [[r g] u]. reflexivity.
Qed.

(** ** Initialisation *)

Lemma init_adam_vecs_cases (code : Z) (n : nat) :
  ((code = 3 \/ code = 4)%Z /\
     init_adam_vecs code n = ([], BMO_MATOPS_ZERO_VEC n))
  \/ ((code = 5 \/ code = 6 \/ code = 7)%Z /\
     init_adam_vecs code n = (BMO_MATOPS_ZERO_VEC n, BMO_MATOPS_ZERO_VEC n))
  \/ ((code < 3 \/ 7 < code)%Z /\ init_adam_vecs code n = ([], [])).
Proof.
  unfold init_adam_vecs.
  destruct (Z.eqb_spec code 3), (Z.eqb_spec code 4), (Z.eqb_spec code 5),
    (Z.eqb_spec code 6), (Z.eqb_spec code 7); cbn [orb];
    try lia; auto 6; right; right; split; [lia | reflexivity].
Qed.

Lemma gd_init_state (settings : settings_t) (bt : VecInt_t) (init : Vec_t)
    (w : world) :
  let n := BMO_MATOPS_SIZE init in
  let x0 := if vals_bound settings
            then transform E init bt (lower_bounds settings) (upper_bounds settings)
            else init in
  let out := run_box_objfn E opt_objfn settings bt x0 (Some (fresh_vec E n)) w in
  let grad := deref (fresh_vec E n) (snd (fst out)) in
  gd_init E opt_objfn settings bt init w =
  ({| st_x := x0;
      st_d := BMO_MATOPS_ZERO_VEC n;
      st_grad := grad;
      st_grad_p := grad;
      st_grad_err := BMO_MATOPS_L2NORM E grad;
      st_rel_sol_change := 1%float;
      st_iter := 0%N;
      st_gd_settings := gd_settings settings;
      st_adam_vec_m := fst (init_adam_vecs (method (gd_settings settings)) n);
      st_adam_vec_v := snd (init_adam_vecs (method (gd_settings settings)) n) |},
   snd out).
Proof.
  cbv zeta. unfold gd_init, bind, ret.
  destruct (init_adam_vecs _ _) as [m v].
  destruct (run_box_objfn _ _ _ _ _ _ w) as [[r ga] w1]. reflexivity.
Qed.

Lemma zero_vec_length (n : nat) : length (BMO_MATOPS_ZERO_VEC n) = n.
Proof. apply repeat_length. Qed.

Lemma zero_vec_nonempty (n : nat) : 0 < n -> BMO_MATOPS_ZERO_VEC n <> [].
Proof. destruct n; [lia | discriminate]. Qed.

(** C8. The accumulators at initialisation. For method codes 3 and 4
    [adam_vec_v] alone is a zero vector of length [n_vals]; for codes 5, 6
    and 7 both accumulators are; for every other code both stay empty.
    For a point of positive length each of the three outcomes occurs
    exactly for its codes. A non-empty accumulator has the length of the
    initial point, which is the length of [x] copied from it. *)
Theorem accumulators_follow_method (settings : settings_t) (bt : VecInt_t)
    (init : Vec_t) (w : world) :
  let s0 := fst (gd_init E opt_objfn settings bt init w) in
  let n := BMO_MATOPS_SIZE init in
  let code := method (gd_settings settings) in
  let v_only :=
    st_adam_vec_m s0 = [] /\ st_adam_vec_v s0 = BMO_MATOPS_ZERO_VEC n in
  let both :=
    st_adam_vec_m s0 = BMO_MATOPS_ZERO_VEC n
    /\ st_adam_vec_v s0 = BMO_MATOPS_ZERO_VEC n in
  let neither := st_adam_vec_m s0 = [] /\ st_adam_vec_v s0 = [] in
  ((code = 3 \/ code = 4)%Z -> v_only)
  /\ ((code = 5 \/ code = 6 \/ code = 7)%Z -> both)
  /\ ((code < 3 \/ 7 < code)%Z -> neither)
  /\ (0 < n ->
      (v_only -> (code = 3 \/ code = 4)%Z)
      /\ (both -> (code = 5 \/ code = 6 \/ code = 7)%Z)
      /\ (neither -> (code < 3 \/ 7 < code)%Z))
  /\ (st_adam_vec_m s0 <> [] -> length (st_adam_vec_m s0) = n)
  /\ (st_adam_vec_v s0 <> [] -> length (st_adam_vec_v s0) = n)
  /\ (vals_bound settings = false -> length (st_x s0) = n).
Proof.
  cbv zeta. rewrite gd_init_state. cbn [fst st_adam_vec_m st_adam_vec_v st_x].
  set (n := BMO_MATOPS_SIZE init). set (code := method (gd_settings settings)).
  assert (Hne : 0 < n -> BMO_MATOPS_ZERO_VEC n = [] -> False)
    by (intros Hn Hz; apply (zero_vec_nonempty n Hn Hz)).
  destruct (init_adam_vecs_cases code n) as [[Hc ->] | [[Hc ->] | [Hc ->]]];
    cbn [fst snd];
    repeat match goal with
           | |- _ /\ _ => split
           | |- _ -> _ => intro
           | H : _ /\ _ |- _ => destruct H
           end;
    try reflexivity; try lia; try congruence;
    try apply zero_vec_length;
    try (exfalso; eauto using eq_sym; fail);
    try match goal with
        | H : vals_bound settings = false |- _ => rewrite H; reflexivity
        end.
Qed.

(** ** The paths that return before the loop *)

Lemma is_finite_vec_false (v : Vec_t) :
  (exists a, In a v /\ is_finite a = false) ->
  BMO_MATOPS_IS_FINITE v = false.
Proof.
  intros (a & Hin & Ha). unfold BMO_MATOPS_IS_FINITE.
  destruct (forallb is_finite v) eqn:Hall; [ | reflexivity].
  rewrite forallb_forall in Hall. rewrite (Hall a Hin) in Ha. discriminate.
Qed.

Lemma gd_basic_impl_non_finite (fuel : nat) (init : Vec_t)
    (settings_inp : option settings_t) (w : world) :
  BMO_MATOPS_IS_FINITE init = false ->
  gd_basic_impl E opt_objfn fuel init settings_inp w =
  Some ({| res_success := false;
           res_out_vals := init;
           res_settings := settings_inp;
           res_iter := 0%N |}, w).
Proof. intros H. unfold gd_basic_impl. rewrite H. reflexivity. Qed.

Lemma gd_basic_impl_converged (fuel : nat) (init : Vec_t)
    (settings_inp : option settings_t) (w : world) (s0 : state)
    (w0 : world) :
  let settings := settings_of E settings_inp in
  BMO_MATOPS_IS_FINITE init = true ->
  gd_init E opt_objfn settings (bounds_type_of E settings init) init w = (s0, w0) ->
  (st_grad_err s0 <=? grad_err_tol settings)%float = true ->
  gd_basic_impl E opt_objfn fuel init settings_inp w =
  Some ({| res_success := true;
           res_out_vals := init;
           res_settings := settings_inp;
           res_iter := 0%N |}, w0).
Proof.
  cbv zeta. intros Hfin Hinit Hle. unfold gd_basic_impl.
  rewrite Hfin, Hinit, Hle. reflexivity.
Qed.

Lemma gd_basic_impl_looping (fuel : nat) (init : Vec_t)
    (settings_inp : option settings_t) (w : world) (s0 : state)
    (w0 : world) :
  let settings := settings_of E settings_inp in
  let bt := bounds_type_of E settings init in
  BMO_MATOPS_IS_FINITE init = true ->
  gd_init E opt_objfn settings bt init w = (s0, w0) ->
  (st_grad_err s0 <=? grad_err_tol settings)%float = false ->
  gd_basic_impl E opt_objfn fuel init settings_inp w =
  match gd_loop E opt_objfn settings bt fuel s0 w0 with
  | None => None
  | Some (s, w1) =>
      Some (gd_finish E opt_objfn settings bt init settings_inp s w1)
  end.
Proof.
  cbv zeta. intros Hfin Hinit Hle. unfold gd_basic_impl.
  rewrite Hfin, Hinit, Hle. reflexivity.
Qed.

(** C2. A starting vector with a non-finite entry makes both [gd] entry
    points return [false] at once: the world is left as it was, so the
    caller's objective has not been invoked, the vector and the settings
    are untouched and no iteration has been performed, whatever the
    fuel. *)
Theorem gd_rejects_non_finite_start (fuel : nat) (init : Vec_t)
    (settings : settings_t) (w : world) :
  (exists a, In a init /\ is_finite a = false) ->
  gd E opt_objfn fuel init w =
    Some ({| res_success := false;
             res_out_vals := init;
             res_settings := None;
             res_iter := 0%N |}, w)
  /\ gd_with_settings E opt_objfn fuel init settings w =
    Some ({| res_success := false;
             res_out_vals := init;
             res_settings := Some settings;
             res_iter := 0%N |}, w).
Proof.
  intros H. apply is_finite_vec_false in H. unfold gd, gd_with_settings.
  split; apply gd_basic_impl_non_finite; assumption.
Qed.

(** C3. For a finite starting point the gradient is computed once,
    through the adapter, at the starting point (transformed when bounds
    are active); when its L2 norm is at most [grad_err_tol] the run
    returns [true] with no iteration performed, and that one evaluation
    is the only invocation of the caller's objective. *)
Theorem gd_converged_at_start (fuel : nat) (init : Vec_t)
    (settings_inp : option settings_t) (w : world)
    (r : float) (grad_after : option Vec_t) (w0 : world) :
  let settings := settings_of E settings_inp in
  let bt := bounds_type_of E settings init in
  let lb := lower_bounds settings in
  let ub := upper_bounds settings in
  let x0 := if vals_bound settings then transform E init bt lb ub else init in
  let fresh := fresh_vec E (BMO_MATOPS_SIZE init) in
  BMO_MATOPS_IS_FINITE init = true ->
  box_objfn E opt_objfn (vals_bound settings) bt lb ub x0 (Some fresh) w
    = ((r, grad_after), w0) ->
  (BMO_MATOPS_L2NORM E (deref fresh grad_after) <=? grad_err_tol settings)%float
    = true ->
  gd_basic_impl E opt_objfn fuel init settings_inp w =
    Some ({| res_success := true;
             res_out_vals := init;
             res_settings := settings_inp;
             res_iter := 0%N |}, w0)
  /\ objfn_calls w0 =
     objfn_calls w
       ++ [(if vals_bound settings then inv_transform E x0 bt lb ub else x0,
            Some fresh)].
Proof.
  cbv zeta. intros Hfin Hbox Hle. split.
  - pose proof (gd_init_state (settings_of E settings_inp)
                  (bounds_type_of E (settings_of E settings_inp) init) init w)
      as Hinit.
    cbv zeta in Hinit. unfold run_box_objfn in Hinit.
    rewrite Hbox in Hinit. cbn [fst snd] in Hinit.
    apply (gd_basic_impl_converged fuel init settings_inp w _ w0 Hfin Hinit).
    exact Hle.
  - pose proof (box_objfn_calls (vals_bound (settings_of E settings_inp))
                  (bounds_type_of E (settings_of E settings_inp) init)
                  (lower_bounds (settings_of E settings_inp))
                  (upper_bounds (settings_of E settings_inp))
                  (if vals_bound (settings_of E settings_inp)
                   then transform E init
                          (bounds_type_of E (settings_of E settings_inp) init)
                          (lower_bounds (settings_of E settings_inp))
                          (upper_bounds (settings_of E settings_inp))
                   else init)
                  (Some (fresh_vec E (BMO_MATOPS_SIZE init))) w) as Hc.
    rewrite Hbox in Hc. exact Hc.
Qed.

(** C10. On the two early returns (a non-finite starting point, and a
    starting gradient within tolerance) the vector [init_out_vals] and the
    settings are returned as they were passed. A run that ends with a
    different vector went through the loop, and the vector is the one
    [error_reporting] left after it. *)
Theorem gd_early_returns_keep_vector (fuel : nat) (init : Vec_t)
    (settings_inp : option settings_t) (w : world) (s0 : state)
    (w0 : world) :
  let settings := settings_of E settings_inp in
  let bt := bounds_type_of E settings init in
  gd_init E opt_objfn settings bt init w = (s0, w0) ->
  (BMO_MATOPS_IS_FINITE init = false ->
     exists res w',
       gd_basic_impl E opt_objfn fuel init settings_inp w = Some (res, w')
       /\ res_out_vals res = init /\ res_settings res = settings_inp
       /\ w' = w)
  /\ (BMO_MATOPS_IS_FINITE init = true ->
      (st_grad_err s0 <=? grad_err_tol settings)%float = true ->
      exists res w',
        gd_basic_impl E opt_objfn fuel init settings_inp w = Some (res, w')
        /\ res_out_vals res = init /\ res_settings res = settings_inp)
  /\ (forall res w',
        gd_basic_impl E opt_objfn fuel init settings_inp w = Some (res, w') ->
        res_out_vals res <> init ->
        exists s w1,
          gd_loop E opt_objfn settings bt fuel s0 w0 = Some (s, w1)
          /\ res_out_vals res =
             fst (fst (fst
               (error_reporting E init
                  (if vals_bound settings
                   then inv_transform E (st_x s) bt
                          (lower_bounds settings) (upper_bounds settings)
                   else st_x s)
                  (invoke_objfn opt_objfn) false (st_grad_err s)
                  (grad_err_tol settings) (st_iter s) (iter_max settings)
                  (conv_failure_switch settings) settings_inp w1)))).
Proof.
  cbv zeta. intros Hinit. repeat split.
  - intros Hfin. do 2 eexists. split;
      [apply gd_basic_impl_non_finite; assumption | auto].
  - intros Hfin Hle. do 2 eexists. split;
      [eapply gd_basic_impl_converged; eassumption | auto].
  - intros res w' Hrun Hne.
    destruct (BMO_MATOPS_IS_FINITE init) eqn:Hfin.
    + destruct (st_grad_err s0 <=? grad_err_tol (settings_of E settings_inp))%float
        eqn:Hle.
      * rewrite (gd_basic_impl_converged fuel init settings_inp w s0 w0
                   Hfin Hinit Hle) in Hrun.
        injection Hrun as <- <-. contradiction Hne. reflexivity.
      * rewrite (gd_basic_impl_looping fuel init settings_inp w s0 w0
                   Hfin Hinit Hle) in Hrun.
        destruct (gd_loop _ _ _ _ fuel s0 w0) as [[s w1] | ]; [ | discriminate].
        exists s, w1. split; [reflexivity | ].
        injection Hrun as Hrun. unfold gd_finish, bind, ret in Hrun.
        destruct (error_reporting E init _ _ _ _ _ _ _ _ settings_inp w1)
          as [[[out ok] sout] w2].
        injection Hrun as <- <-. reflexivity.
    + rewrite (gd_basic_impl_non_finite fuel init settings_inp w Hfin) in Hrun.
      injection Hrun as <- <-. contradiction Hne. reflexivity.
Qed.

(** ** The iteration loop *)

Section Loop.
Variable settings : settings_t.
Variable bt : VecInt_t.

Local Abbreviation box := (run_box_objfn E opt_objfn settings bt).
Local Abbreviation iteration := (gd_iteration E opt_objfn settings bt).
Local Abbreviation iterations := (gd_iterations E opt_objfn settings bt).
Local Abbreviation loop := (gd_loop E opt_objfn settings bt).

(** The loop body, given what its two calls return. *)
Lemma gd_iteration_eq (s : state) (w : world)
    (d_p : Vec_t) (gs : gd_settings_t GdParams) (m v : Vec_t) (w1 : world)
    (r : float) (ga : option Vec_t) (w2 : world) :
  gd_update E (st_x s) (st_grad s) (st_grad_p s) (st_d s) box
    (size_t_incr (st_iter s)) (st_gd_settings s)
    (st_adam_vec_m s) (st_adam_vec_v s) w = ((d_p, gs, m, v), w1) ->
  box (vec_sub (st_x s) d_p) (Some (st_grad_p s)) w1 = ((r, ga), w2) ->
  iteration s w =
  ({| st_x := vec_sub (st_x s) d_p;
      st_d := d_p;
      st_grad := st_grad_p s;
      st_grad_p := clip_post_step E gs (deref (st_grad_p s) ga);
      st_grad_err :=
        BMO_MATOPS_L2NORM E (clip_post_step E gs (deref (st_grad_p s) ga));
      st_rel_sol_change := rel_sol_change_of E (vec_sub (st_x s) d_p) (st_x s);
      st_iter := size_t_incr (st_iter s);
      st_gd_settings := gs;
      st_adam_vec_m := m;
      st_adam_vec_v := v |}, w2).
Proof.
  intros Hu Hb. unfold gd_iteration, bind, ret. rewrite Hu, Hb. reflexivity.
Qed.

Lemma gd_iteration_calls (s : state) (w : world) :
  exists d_p gs m v w1 r ga w2,
    gd_update E (st_x s) (st_grad s) (st_grad_p s) (st_d s) box
      (size_t_incr (st_iter s)) (st_gd_settings s)
      (st_adam_vec_m s) (st_adam_vec_v s) w = ((d_p, gs, m, v), w1)
    /\ box (vec_sub (st_x s) d_p) (Some (st_grad_p s)) w1 = ((r, ga), w2).
Proof.
  destruct (gd_update E (st_x s) (st_grad s) (st_grad_p s) (st_d s) box
              (size_t_incr (st_iter s)) (st_gd_settings s)
              (st_adam_vec_m s) (st_adam_vec_v s) w)
    as [[[[d_p gs] m] v] w1] eqn:Hu.
  destruct (box (vec_sub (st_x s) d_p) (Some (st_grad_p s)) w1)
    as [[r ga] w2] eqn:Hb.
  exists d_p, gs, m, v, w1, r, ga, w2. split; [reflexivity | assumption].
Qed.

Lemma gd_iteration_iter (s : state) (w : world) :
  st_iter (fst (iteration s w)) = size_t_incr (st_iter s).
Proof.
  destruct (gd_iteration_calls s w) as (d_p & gs & m & v & w1 & r & ga & w2 & Hu & Hb).
  rewrite (gd_iteration_eq s w _ _ _ _ _ _ _ _ Hu Hb). reflexivity.
Qed.

Lemma gd_iteration_grad_err (s : state) (w : world) :
  st_grad_err (fst (iteration s w)) =
  BMO_MATOPS_L2NORM E (st_grad_p (fst (iteration s w))).
Proof.
  destruct (gd_iteration_calls s w) as (d_p & gs & m & v & w1 & r & ga & w2 & Hu & Hb).
  rewrite (gd_iteration_eq s w _ _ _ _ _ _ _ _ Hu Hb). reflexivity.
Qed.

Lemma loop_guard_iff (s : state) :
  loop_guard settings s = true <->
  (grad_err_tol settings <? st_grad_err s)%float = true
  /\ (rel_sol_change_tol settings <? st_rel_sol_change s)%float = true
  /\ (st_iter s < iter_max settings)%N.
Proof.
  unfold loop_guard. rewrite !andb_true_iff, N.ltb_lt. tauto.
Qed.

Lemma gd_loop_step (fuel : nat) (s : state) (w : world) :
  loop (S fuel) s w =
  if loop_guard settings s
  then let (s', w') := iteration s w in loop fuel s' w'
  else Some (s, w).
Proof. reflexivity. Qed.

Lemma gd_iterations_step (n : nat) (s : state) (w : world) :
  iterations (S n) s w =
  iterations n (fst (iteration s w)) (snd (iteration s w)).
Proof. cbn [gd_iterations]. destruct (iteration s w). reflexivity. Qed.

(** What the loop returns is reached by running the body some number
    of times; the condition held before each of these runs and fails
    at the end. *)
Lemma gd_loop_sound (fuel : nat) :
  forall (s : state) (w : world) (s' : state) (w' : world),
    loop fuel s w = Some (s', w') ->
    exists n,
      n <= fuel
      /\ iterations n s w = (s', w')
      /\ loop_guard settings s' = false
      /\ (forall k, k < n ->
            loop_guard settings (fst (iterations k s w)) = true).
Proof.
  induction fuel as [ | fuel IH]; intros s w s' w' H; cbn [gd_loop] in H;
    destruct (loop_guard settings s) eqn:Hg; try discriminate.
  - injection H as <- <-. exists 0.
    repeat split; auto; try lia; try (intros k Hk; lia).
  - destruct (iteration s w) as [s1 w1] eqn:Hit.
    destruct (IH s1 w1 s' w' H) as (n & Hn & Hrun & Hend & Hbefore).
    exists (S n). repeat split; [lia | | assumption | ].
    + rewrite gd_iterations_step, Hit. exact Hrun.
    + intros [ | k] Hk; [exact Hg | ].
      rewrite gd_iterations_step, Hit. apply Hbefore. lia.
  - injection H as <- <-. exists 0.
    repeat split; auto; try lia; try (intros k Hk; lia).
Qed.

Lemma size_t_incr_no_wrap (i : N) :
  (i < iter_max settings)%N ->
  (iter_max settings < size_t_modulus)%N ->
  size_t_incr i = (i + 1)%N.
Proof.
  intros Hi Hmax. unfold size_t_incr. apply N.mod_small. lia.
Qed.

(** With a [size_t] iteration cap and fuel for the iterations that
    remain, the loop returns, after at most that many iterations. *)
Lemma gd_loop_total (fuel : nat) :
  forall (s : state) (w : world),
    (iter_max settings < size_t_modulus)%N ->
    (st_iter s <= iter_max settings)%N ->
    N.to_nat (iter_max settings - st_iter s) <= fuel ->
    exists n s' w',
      loop fuel s w = Some (s', w')
      /\ iterations n s w = (s', w')
      /\ st_iter s' = (st_iter s + N.of_nat n)%N
      /\ (st_iter s' <= iter_max settings)%N.
Proof.
  induction fuel as [ | fuel IH]; intros s w Hmax Hle Hfuel;
    cbn [gd_loop]; destruct (loop_guard settings s) eqn:Hg.
  - apply loop_guard_iff in Hg. lia.
  - exists 0, s, w. repeat split; auto. cbn. lia.
  - apply loop_guard_iff in Hg. destruct Hg as (_ & _ & Hlt).
    pose proof (gd_iteration_iter s w) as Hit.
    rewrite (size_t_incr_no_wrap _ Hlt Hmax) in Hit.
    destruct (iteration s w) as [s1 w1] eqn:Hstep. cbn [fst] in Hit.
    destruct (IH s1 w1 Hmax) as (n & s' & w' & Hrun & Hn & Hiter & Hcap);
      [lia | lia | ].
    exists (S n), s', w'. repeat split; [assumption | | lia | assumption].
    rewrite gd_iterations_step, Hstep. exact Hn.
  - exists 0, s, w. repeat split; auto. cbn. lia.
Qed.

(** A property of the state that holds on entry and that the body
    preserves holds when the loop returns. *)
Lemma gd_loop_invariant (P : state -> Prop) (fuel : nat) :
  (forall s w, P s -> P (fst (iteration s w))) ->
  forall (s : state) (w : world) (s' : state) (w' : world),
    P s -> loop fuel s w = Some (s', w') -> P s'.
Proof.
  intros Hstep. induction fuel as [ | fuel IH]; intros s w s' w' Hs H;
    cbn [gd_loop] in H; destruct (loop_guard settings s); try discriminate.
  - injection H as <- <-. assumption.
  - specialize (Hstep s w Hs). destruct (iteration s w) as [s1 w1].
    apply (IH s1 w1 s' w' Hstep H).
  - injection H as <- <-. assumption.
Qed.

Lemma gd_finish_iter (init : Vec_t) (settings_inp : option settings_t)
    (s : state) (w : world) :
  res_iter (fst (gd_finish E opt_objfn settings bt init settings_inp s w)) =
  st_iter s.
Proof.
  unfold gd_finish, bind, ret.
  destruct (error_reporting E init _ _ _ _ _ _ _ _ settings_inp w)
    as [[[out ok] sout] w']. reflexivity.
Qed.
End Loop.

(** With a [size_t] iteration cap and fuel for the iterations that remain,
    the loop returns the state reached by the runs of the body that the
    condition asks for: it held before each of them and fails after the
    last. *)
Lemma gd_loop_run (settings : settings_t) (bt : VecInt_t) (fuel : nat) :
  forall (s : state) (w : world),
    (iter_max settings < size_t_modulus)%N ->
    (st_iter s <= iter_max settings)%N ->
    N.to_nat (iter_max settings - st_iter s) <= fuel ->
    exists n s' w',
      gd_loop E opt_objfn settings bt fuel s w = Some (s', w')
      /\ gd_iterations E opt_objfn settings bt n s w = (s', w')
      /\ st_iter s' = (st_iter s + N.of_nat n)%N
      /\ (st_iter s' <= iter_max settings)%N
      /\ loop_guard settings s' = false
      /\ (forall k, k < n ->
            loop_guard settings
              (fst (gd_iterations E opt_objfn settings bt k s w)) = true).
Proof.
  induction fuel as [ | fuel IH]; intros s w Hmax Hle Hfuel;
    cbn [gd_loop]; destruct (loop_guard settings s) eqn:Hg.
  - apply loop_guard_iff in Hg. lia.
  - exists 0, s, w. repeat split; auto; try (cbn; lia);
      try (intros k Hk; lia).
  - pose proof Hg as Hg0.
    apply loop_guard_iff in Hg. destruct Hg as (_ & _ & Hlt).
    pose proof (gd_iteration_iter settings bt s w) as Hit.
    rewrite (size_t_incr_no_wrap settings _ Hlt Hmax) in Hit.
    destruct (gd_iteration E opt_objfn settings bt s w) as [s1 w1] eqn:Hstep.
    cbn [fst] in Hit.
    destruct (IH s1 w1 Hmax)
      as (n & s' & w' & Hrun & Hn & Hiter & Hcap & Hend & Hbefore);
      [lia | lia | ].
    exists (S n), s', w'.
    split; [assumption | ].
    split; [rewrite gd_iterations_step, Hstep; exact Hn | ].
    split; [lia | ]. split; [assumption | ]. split; [assumption | ].
    intros [ | k] Hk; [exact Hg0 | ].
    rewrite gd_iterations_step, Hstep. apply Hbefore. lia.
  - exists 0, s, w. repeat split; auto; try (cbn; lia);
      try (intros k Hk; lia).
Qed.

(** C1. The driver runs the loop body exactly while the gradient norm
    exceeds [grad_err_tol], the relative change exceeds
    [rel_sol_change_tol] and [iter] is below [iter_max]. A run of
    [gd_basic_impl] that gets past the two early returns is the
    initialisation, some number [n] of runs of the body and the way out:
    the three tests held before each of the [n] runs and one of them fails
    in the state handed to [error_reporting]. With a [size_t] cap and fuel
    for [iter_max] iterations the run returns, [n] is at most [iter_max]
    and it is the value of [iter]. With a cap of zero and a starting
    gradient above the tolerance the body is never run and the result is
    what [error_reporting] makes of the starting state. *)
Theorem gd_loop_runs_while_guard (fuel : nat) (init : Vec_t)
    (settings_inp : option settings_t) (w : world) :
  let settings := settings_of E settings_inp in
  let bt := bounds_type_of E settings init in
  (forall s,
     loop_guard settings s = true <->
     (grad_err_tol settings <? st_grad_err s)%float = true
     /\ (rel_sol_change_tol settings <? st_rel_sol_change s)%float = true
     /\ (st_iter s < iter_max settings)%N)
  /\ (forall s w0 s' w',
        gd_loop E opt_objfn settings bt fuel s w0 = Some (s', w') ->
        exists n,
          n <= fuel
          /\ gd_iterations E opt_objfn settings bt n s w0 = (s', w')
          /\ loop_guard settings s' = false
          /\ (forall k, k < n ->
                loop_guard settings
                  (fst (gd_iterations E opt_objfn settings bt k s w0)) = true))
  /\ (forall s0 w0 res w',
        BMO_MATOPS_IS_FINITE init = true ->
        gd_init E opt_objfn settings bt init w = (s0, w0) ->
        (st_grad_err s0 <=? grad_err_tol settings)%float = false ->
        gd_basic_impl E opt_objfn fuel init settings_inp w = Some (res, w') ->
        exists n s' w1,
          n <= fuel
          /\ gd_iterations E opt_objfn settings bt n s0 w0 = (s', w1)
          /\ (forall k, k < n ->
                loop_guard settings
                  (fst (gd_iterations E opt_objfn settings bt k s0 w0)) = true)
          /\ loop_guard settings s' = false
          /\ (res, w') =
             gd_finish E opt_objfn settings bt init settings_inp s' w1)
  /\ ((iter_max settings < size_t_modulus)%N ->
      N.to_nat (iter_max settings) <= fuel ->
      exists res w',
        gd_basic_impl E opt_objfn fuel init settings_inp w = Some (res, w')
        /\ (res_iter res <= iter_max settings)%N
        /\ (forall s0 w0,
              BMO_MATOPS_IS_FINITE init = true ->
              gd_init E opt_objfn settings bt init w = (s0, w0) ->
              (st_grad_err s0 <=? grad_err_tol settings)%float = false ->
              exists n s' w1,
                gd_iterations E opt_objfn settings bt n s0 w0 = (s', w1)
                /\ (forall k, k < n ->
                      loop_guard settings
                        (fst (gd_iterations E opt_objfn settings bt k s0 w0))
                      = true)
                /\ loop_guard settings s' = false
                /\ (N.of_nat n <= iter_max settings)%N
                /\ res_iter res = N.of_nat n
                /\ (res, w') =
                   gd_finish E opt_objfn settings bt init settings_inp s' w1))
  /\ (iter_max settings = 0%N ->
      BMO_MATOPS_IS_FINITE init = true ->
      forall s0 w0,
        gd_init E opt_objfn settings bt init w = (s0, w0) ->
        (grad_err_tol settings <? st_grad_err s0)%float = true ->
        gd_basic_impl E opt_objfn fuel init settings_inp w =
          Some (gd_finish E opt_objfn settings bt init settings_inp s0 w0)
        /\ res_iter
             (fst (gd_finish E opt_objfn settings bt init settings_inp s0 w0))
           = 0%N).
Proof.
  cbv zeta.
  set (settings := settings_of E settings_inp).
  set (bt := bounds_type_of E settings init).
  assert (Hstart : forall s0 w0,
             gd_init E opt_objfn settings bt init w = (s0, w0) ->
             st_iter s0 = 0%N).
  { intros s0 w0 Hinit.
    pose proof (gd_init_state settings bt init w) as Hst.
    cbv zeta in Hst. rewrite Hinit in Hst.
    injection Hst as -> _. reflexivity. }
  split; [apply loop_guard_iff | ].
  split; [intros s w0 s' w'; apply gd_loop_sound | ].
  split; [ | split].
  - intros s0 w0 res w' Hfin Hinit Hle Hres.
    rewrite (gd_basic_impl_looping fuel init settings_inp w s0 w0
               Hfin Hinit Hle) in Hres.
    fold settings bt in Hres.
    destruct (gd_loop E opt_objfn settings bt fuel s0 w0)
      as [[s' w1] | ] eqn:Hrun; [ | discriminate].
    destruct (gd_loop_sound settings bt fuel s0 w0 s' w1 Hrun)
      as (n & Hn & Hits & Hend & Hbefore).
    injection Hres as Hres.
    exists n, s', w1. repeat split; auto.
  - intros Hmax Hfuel.
    destruct (BMO_MATOPS_IS_FINITE init) eqn:Hfin.
    + destruct (gd_init E opt_objfn settings bt init w) as [s0 w0] eqn:Hinit.
      destruct (st_grad_err s0 <=? grad_err_tol settings)%float eqn:Hle.
      * do 2 eexists. split;
          [apply (gd_basic_impl_converged fuel init settings_inp w s0 w0
                    Hfin Hinit Hle) | ].
        split; [cbn; lia | ].
        intros s1 w1 _ Heq Hle'. injection Heq as <- <-. congruence.
      * rewrite (gd_basic_impl_looping fuel init settings_inp w s0 w0
                   Hfin Hinit Hle).
        pose proof (Hstart s0 w0 eq_refl) as Hs0.
        destruct (gd_loop_run settings bt fuel s0 w0 Hmax)
          as (n & s' & w' & Hrun & Hn & Hiter & Hcap & Hend & Hbefore);
          [rewrite Hs0; lia | rewrite Hs0; lia | ].
        fold settings bt. rewrite Hrun.
        pose proof (gd_finish_iter settings bt init settings_inp s' w') as Hit.
        destruct (gd_finish E opt_objfn settings bt init settings_inp s' w')
          as [res w''] eqn:Hfinish.
        cbn [fst] in Hit. rewrite Hs0, N.add_0_l in Hiter.
        exists res, w''. split; [reflexivity | ].
        split; [rewrite Hit; exact Hcap | ].
        intros s1 w1 _ Heq _. injection Heq as <- <-.
        exists n, s', w'.
        split; [exact Hn | ]. split; [exact Hbefore | ].
        split; [exact Hend | ]. split; [lia | ].
        split; congruence.
    + do 2 eexists. split;
        [apply (gd_basic_impl_non_finite fuel init settings_inp w Hfin) | ].
      split; [cbn; lia | ]. intros s0 w0 Habs. discriminate.
  - intros Hzero Hfin s0 w0 Hinit Hgt.
    pose proof (Hstart s0 w0 Hinit) as Hs0.
    rewrite (gd_basic_impl_looping fuel init settings_inp w s0 w0 Hfin Hinit
               (FloatFacts.ltb_not_leb _ _ Hgt)).
    fold settings bt.
    assert (Hg : loop_guard settings s0 = false).
    { unfold loop_guard. rewrite Hs0, Hzero, andb_false_r. reflexivity. }
    split.
    + destruct fuel; cbn [gd_loop]; rewrite Hg; reflexivity.
    + rewrite gd_finish_iter. exact Hs0.
Qed.

(** ** Gradient clipping and the convergence test *)

(** The gradient criterion is kept in step with the post-step gradient:
    on entry to the loop, and after every iteration. *)
Lemma gd_init_grad_err (settings : settings_t) (bt : VecInt_t) (init : Vec_t)
    (w : world) :
  let s0 := fst (gd_init E opt_objfn settings bt init w) in
  st_grad_err s0 = BMO_MATOPS_L2NORM E (st_grad_p s0)
  /\ st_grad s0 = st_grad_p s0.
Proof. cbv zeta. rewrite gd_init_state. split; reflexivity. Qed.

Lemma gd_finish_eq (settings : settings_t) (bt : VecInt_t) (init : Vec_t)
    (settings_inp : option settings_t) (s : state) (w : world) :
  gd_finish E opt_objfn settings bt init settings_inp s w =
  (let '(out_vals, success, settings_out, w') :=
     error_reporting E init
       (if vals_bound settings
        then inv_transform E (st_x s) bt
               (lower_bounds settings) (upper_bounds settings)
        else st_x s)
       (invoke_objfn opt_objfn) false (st_grad_err s)
       (grad_err_tol settings) (st_iter s) (iter_max settings)
       (conv_failure_switch settings) settings_inp w in
   ({| res_success := success;
       res_out_vals := out_vals;
       res_settings := settings_out;
       res_iter := st_iter s |}, w')).
Proof.
  unfold gd_finish, bind, ret.
  destruct (error_reporting E init _ _ _ _ _ _ _ _ settings_inp w)
    as [[[out ok] sout] w']. reflexivity.
Qed.

(** C9. In an iteration with clipping enabled, the gradient norm
    [grad_err] the iteration leaves behind is the L2 norm of the clipped
    post-step gradient, and the loop condition tests that norm. The norm
    handed to [error_reporting] when the loop returns is the L2 norm of
    the post-step gradient as the last iteration stored it. *)
Theorem grad_err_is_norm_of_clipped_gradient (settings : settings_t)
    (bt : VecInt_t) :
  (forall s w d_p gs m v w1 r ga w2,
     gd_update E (st_x s) (st_grad s) (st_grad_p s) (st_d s)
       (run_box_objfn E opt_objfn settings bt)
       (size_t_incr (st_iter s)) (st_gd_settings s)
       (st_adam_vec_m s) (st_adam_vec_v s) w = ((d_p, gs, m, v), w1) ->
     run_box_objfn E opt_objfn settings bt
       (vec_sub (st_x s) d_p) (Some (st_grad_p s)) w1 = ((r, ga), w2) ->
     clip_grad gs = true ->
     let clipped := gradient_clipping E (deref (st_grad_p s) ga) gs in
     let s' := fst (gd_iteration E opt_objfn settings bt s w) in
     st_grad_p s' = clipped
     /\ st_grad_err s' = BMO_MATOPS_L2NORM E clipped
     /\ loop_guard settings s' =
        (grad_err_tol settings <? BMO_MATOPS_L2NORM E clipped)%float
        && (rel_sol_change_tol settings <? st_rel_sol_change s')%float
        && (st_iter s' <? iter_max settings)%N)
  /\ (forall fuel init settings_inp w s w1,
        gd_loop E opt_objfn settings bt fuel
          (fst (gd_init E opt_objfn settings bt init w))
          (snd (gd_init E opt_objfn settings bt init w)) = Some (s, w1) ->
        st_grad_err s = BMO_MATOPS_L2NORM E (st_grad_p s)
        /\ gd_finish E opt_objfn settings bt init settings_inp s w1 =
           (let '(out_vals, success, settings_out, w') :=
              error_reporting E init
                (if vals_bound settings
                 then inv_transform E (st_x s) bt
                        (lower_bounds settings) (upper_bounds settings)
                 else st_x s)
                (invoke_objfn opt_objfn) false
                (BMO_MATOPS_L2NORM E (st_grad_p s))
                (grad_err_tol settings) (st_iter s) (iter_max settings)
                (conv_failure_switch settings) settings_inp w1 in
            ({| res_success := success;
                res_out_vals := out_vals;
                res_settings := settings_out;
                res_iter := st_iter s |}, w'))).
Proof.
  split.
  - intros s w d_p gs m v w1 r ga w2 Hu Hb Hclip. cbv zeta.
    rewrite (gd_iteration_eq settings bt s w _ _ _ _ _ _ _ _ Hu Hb).
    unfold loop_guard, clip_post_step. cbn [fst st_grad_p st_grad_err].
    rewrite Hclip. repeat split; reflexivity.
  - intros fuel init settings_inp w s w1 Hrun.
    assert (Herr : st_grad_err s = BMO_MATOPS_L2NORM E (st_grad_p s)).
    { apply (gd_loop_invariant settings bt
               (fun s => st_grad_err s = BMO_MATOPS_L2NORM E (st_grad_p s))
               fuel) with (3 := Hrun).
      - intros s1 w0 _. apply gd_iteration_grad_err.
      - apply gd_init_grad_err. }
    split; [exact Herr | ]. rewrite gd_finish_eq, Herr. reflexivity.
Qed.

(** C6. In an iteration the clipper is applied to the post-step gradient
    [grad_p] alone, once, and only under the [clip_grad] flag: without
    the flag [grad_p] is the gradient the adapter returned, with it
    [grad_p] is that gradient clipped; the baseline [grad] is the
    previous [grad_p] as it was, and the gradient computed at
    initialisation is never clipped. With the flag set and a clipper that
    meets the contract of section 4.4, for a threshold that is not
    negative the configured measure of the stored [grad_p] does not
    exceed the threshold. *)
Theorem clipping_only_post_step (settings : settings_t) (bt : VecInt_t)
    (measure : gd_settings_t GdParams -> Vec_t -> float)
    (threshold : gd_settings_t GdParams -> float)
    (s : state) (w : world) (d_p : Vec_t) (gs : gd_settings_t GdParams)
    (m v : Vec_t) (w1 : world) (r : float) (ga : option Vec_t) (w2 : world) :
  gd_update E (st_x s) (st_grad s) (st_grad_p s) (st_d s)
    (run_box_objfn E opt_objfn settings bt)
    (size_t_incr (st_iter s)) (st_gd_settings s)
    (st_adam_vec_m s) (st_adam_vec_v s) w = ((d_p, gs, m, v), w1) ->
  run_box_objfn E opt_objfn settings bt
    (vec_sub (st_x s) d_p) (Some (st_grad_p s)) w1 = ((r, ga), w2) ->
  let raw := deref (st_grad_p s) ga in
  let s' := fst (gd_iteration E opt_objfn settings bt s w) in
  st_grad s' = st_grad_p s
  /\ (clip_grad gs = false -> st_grad_p s' = raw)
  /\ (clip_grad gs = true -> st_grad_p s' = gradient_clipping E raw gs)
  /\ (clip_grad gs = true ->
      clipping_contract (gradient_clipping E) measure threshold ->
      (0 <=? threshold gs)%float = true ->
      (threshold gs <? measure gs (st_grad_p s'))%float = false)
  /\ (forall init w0,
        let n := BMO_MATOPS_SIZE init in
        let x0 :=
          if vals_bound settings
          then transform E init bt (lower_bounds settings) (upper_bounds settings)
          else init in
        st_grad_p (fst (gd_init E opt_objfn settings bt init w0)) =
        deref (fresh_vec E n)
          (snd (fst (run_box_objfn E opt_objfn settings bt x0
                       (Some (fresh_vec E n)) w0)))).
Proof.
  intros Hu Hb. cbv zeta.
  rewrite (gd_iteration_eq settings bt s w _ _ _ _ _ _ _ _ Hu Hb).
  unfold clip_post_step. cbn [fst st_grad st_grad_p].
  repeat split.
  - intros ->. reflexivity.
  - intros ->. reflexivity.
  - intros -> Hcontract Hth. apply Hcontract. exact Hth.
  - intros init w0. rewrite gd_init_state. reflexivity.
Qed.

(** ** The relative solution change *)

Lemma denominators_positive (x : Vec_t) :
  BMO_MATOPS_IS_FINITE x = true ->
  Forall (fun d => (0 <? d)%float = true /\ (d =? 0)%float = false)
    (BMO_MATOPS_ARRAY_ADD_SCALAR (BMO_MATOPS_ABS x) rel_sol_change_floor).
Proof.
  unfold BMO_MATOPS_IS_FINITE, BMO_MATOPS_ARRAY_ADD_SCALAR, BMO_MATOPS_ABS.
  induction x as [ | a x IH]; cbn [forallb map]; intros H; constructor.
  - apply andb_prop in H. destruct H as [Ha _].
    assert (Hpos : (0 <? abs a + rel_sol_change_floor)%float = true).
    { apply FloatFacts.abs_plus_positive;
        [apply FloatFacts.is_finite_not_nan, Ha | ].
      exists 6044629098073146%positive, (-79)%Z. reflexivity. }
    split; [exact Hpos | apply FloatFacts.ltb_positive_not_zero, Hpos].
  - apply IH. apply andb_prop in H. tauto.
Qed.

Lemma quotients_not_nan (num den : Vec_t) :
  BMO_MATOPS_IS_FINITE num = true ->
  Forall (fun d => (0 <? d)%float = true /\ (d =? 0)%float = false) den ->
  Forall (fun q => is_nan q = false) (BMO_MATOPS_ARRAY_DIV_ARRAY num den).
Proof.
  unfold BMO_MATOPS_IS_FINITE, BMO_MATOPS_ARRAY_DIV_ARRAY.
  revert den. induction num as [ | a num IH]; intros den Hn Hd;
    [constructor | ].
  destruct den as [ | d den]; [constructor | ].
  cbn [forallb] in Hn. apply andb_prop in Hn. destruct Hn as [Ha Hn].
  inversion Hd as [ | d' den' [Hpos _] Hden]; subst.
  cbn [map2]. constructor.
  - apply FloatFacts.div_by_positive_not_nan; assumption.
  - apply IH; assumption.
Qed.

(** C7. After an iteration the relative solution change is the L1 norm
    of the elementwise quotient of [x_new - x_old] by
    [|x_old| + 1.0e-08]. For a finite [x_old] every denominator is
    strictly positive, hence not zero, whatever the rounding of the sum;
    a finite difference divided by it is not a NaN. *)
Theorem rel_sol_change_never_divides_by_zero (settings : settings_t)
    (bt : VecInt_t) (s : state) (w : world) :
  let s' := fst (gd_iteration E opt_objfn settings bt s w) in
  let denominators :=
    BMO_MATOPS_ARRAY_ADD_SCALAR (BMO_MATOPS_ABS (st_x s)) rel_sol_change_floor in
  let numerators := vec_sub (st_x s') (st_x s) in
  st_rel_sol_change s' =
     BMO_MATOPS_L1NORM E (BMO_MATOPS_ARRAY_DIV_ARRAY numerators denominators)
  /\ (BMO_MATOPS_IS_FINITE (st_x s) = true ->
      Forall (fun d => (0 <? d)%float = true /\ (d =? 0)%float = false)
        denominators
      /\ (BMO_MATOPS_IS_FINITE numerators = true ->
          Forall (fun q => is_nan q = false)
            (BMO_MATOPS_ARRAY_DIV_ARRAY numerators denominators))).
Proof.
  cbv zeta.
  destruct (gd_iteration_calls settings bt s w)
    as (d_p & gs & m & v & w1 & r & ga & w2 & Hu & Hb).
  rewrite (gd_iteration_eq settings bt s w _ _ _ _ _ _ _ _ Hu Hb).
  cbn [fst st_x st_rel_sol_change].
  split; [reflexivity | ].
  intros Hfin. pose proof (denominators_positive (st_x s) Hfin) as Hden.
  split; [exact Hden | ].
  intros Hnum. apply quotients_not_nan; assumption.
Qed.

End DriverFacts.

(** * The capping clipper meets the contract *)

Lemma cap_coordinate_bound (bound a : float) :
  (0 <=? bound)%float = true ->
  (bound <? abs (cap_coordinate bound a))%float = false.
Proof.
  intros Hb. apply FloatFacts.zero_leb_nonneg in Hb. unfold cap_coordinate.
  destruct (bound <? a)%float eqn:H1.
  - rewrite ltb_spec, abs_spec. apply FloatFacts.SFltb_abs_self, Hb.
  - destruct (a <? - bound)%float eqn:H2.
    + rewrite ltb_spec, abs_spec, opp_spec. apply FloatFacts.SFltb_abs_self, Hb.
    + rewrite ltb_spec in H1, H2 |- *. rewrite opp_spec in H2. rewrite abs_spec.
      destruct (FloatFacts.SFltb_abs_cases (Prim2SF bound) (Prim2SF a)) as [-> | ->];
        [exact H1 | rewrite FloatFacts.SFltb_opp; exact H2].
Qed.

Lemma linfnorm_bound (bound : float) (g : Vec_t) :
  (bound <? 0)%float = false ->
  Forall (fun a => (bound <? abs a)%float = false) g ->
  (bound <? linfnorm g)%float = false.
Proof.
  unfold linfnorm. generalize 0%float as acc. intros acc Hacc Hall.
  revert acc Hacc. induction Hall as [ | a g Ha _ IH]; intros acc Hacc;
    cbn [fold_left]; [exact Hacc | ].
  apply IH. destruct (acc <? abs a)%float; assumption.
Qed.

Lemma cap_clipping_meets_contract :
  clipping_contract Sample.cap_clipping Sample.clip_measure Sample.clip_threshold.
Proof.
  intros g cfg Hth. unfold Sample.cap_clipping, Sample.clip_measure, cap_gradient.
  apply linfnorm_bound.
  - rewrite ltb_spec, FloatFacts.Prim2SF_zero.
    apply FloatFacts.SFltb_zero_nonneg, FloatFacts.zero_leb_nonneg, Hth.
  - apply Forall_map, Forall_forall. intros a _.
    apply cap_coordinate_bound, Hth.
Qed.

(** * Concrete runs

    The driver on [Sample.sum_of_squares], started at [(1, 1)] and at
    other points. *)

Module Runs.
Local Open Scope float_scope.
Import Sample.

Local Abbreviation env := Sample.run_env.
Local Abbreviation f := Sample.sum_of_squares.

(** Plain descent with step one half reaches the minimiser in one
    iteration. *)
Example gd_one_step :
  gd_with_settings env f 10 [1; 1]
    (Sample.run_settings 0 0x1p-1 10 false false) Sample.start
  = Some ({| res_success := true;
             res_out_vals := [0; 0];
             res_settings := Some (Sample.run_settings 0 0x1p-1 10 false false);
             res_iter := 1 |},
          {| opt_data := 2%nat;
             objfn_calls := [([1; 1], Some [0; 0]); ([0; 0], Some [2; 2])] |}).
Proof. vm_compute. reflexivity. Qed.

(** With step one eighth the gradient criterion is met after 52
    iterations. *)
Example gd_many_steps :
  option_map (fun out => (res_success (fst out), res_iter (fst out),
                          opt_data (snd out)))
    (gd_with_settings env f 100 [1; 1]
       (Sample.run_settings 0 0x1p-3 100 false true) Sample.start)
  = Some (true, 52%N, 53%nat).
Proof. vm_compute. reflexivity. Qed.

(** Three units of fuel are not enough for that run. *)
Example gd_out_of_fuel :
  gd_with_settings env f 3 [1; 1]
    (Sample.run_settings 0 0x1p-3 100 false true) Sample.start = None.
Proof. vm_compute. reflexivity. Qed.

(** A run capped at three iterations returns after [n] runs of the body,
    [n] at most three and the reported [iter]: the loop condition held
    before each of them and fails in the state that is reported. With a cap
    of zero the way out of the loop reports no iteration. *)
Lemma gd_loop_runs_while_guard_on_sample :
  (let cfg := Sample.run_settings 0 0x1p-3 3 false false in
   let start := gd_init env f cfg (bounds_type_of env cfg [1; 1]) [1; 1]
                  Sample.start in
   exists res w' n s',
     gd_basic_impl env f 3 [1; 1] (Some cfg) Sample.start = Some (res, w')
     /\ (res_iter res <= 3)%N
     /\ res_iter res = N.of_nat n
     /\ fst (gd_iterations env f cfg (bounds_type_of env cfg [1; 1]) n
               (fst start) (snd start)) = s'
     /\ loop_guard cfg s' = false
     /\ (forall k, k < n ->
           loop_guard cfg
             (fst (gd_iterations env f cfg (bounds_type_of env cfg [1; 1]) k
                     (fst start) (snd start))) = true))
  /\ res_iter
       (fst (gd_finish env f (Sample.run_settings 0 0x1p-3 0 true true) bt
               [1; 1] (Some (Sample.run_settings 0 0x1p-3 0 true true))
               s0 w0)) = 0%N.
Proof.
  split.
  - cbv zeta.
    destruct (gd_loop_runs_while_guard env f 3 [1; 1]
                 (Some (Sample.run_settings 0 0x1p-3 3 false false)) Sample.start)
      as (_ & _ & _ & Hrun & _).
    destruct (Hrun eq_refl (le_n 3)) as (res & w' & Heq & Hcap & Hloop).
    destruct (Hloop _ _ eq_refl (surjective_pairing _) eq_refl)
      as (n & s' & w1 & Hits & Hbefore & Hend & _ & Hiter & _).
    exists res, w', n, s'.
    split; [exact Heq | ]. split; [exact Hcap | ]. split; [exact Hiter | ].
    split; [exact (f_equal fst Hits) | ]. split; [exact Hend | exact Hbefore].
  - apply (gd_loop_runs_while_guard env f 3 [1; 1]
             (Some (Sample.run_settings 0 0x1p-3 0 true true)) Sample.start);
      reflexivity.
Defined.

(** A start with a NaN entry is rejected with the world untouched. *)
Lemma gd_rejects_non_finite_start_on_sample :
  gd env f 5 [1; nan] Sample.start =
    Some ({| res_success := false;
             res_out_vals := [1; nan];
             res_settings := None;
             res_iter := 0%N |}, Sample.start)
  /\ gd_with_settings env f 5 [1; nan] clipped Sample.start =
    Some ({| res_success := false;
             res_out_vals := [1; nan];
             res_settings := Some clipped;
             res_iter := 0%N |}, Sample.start).
Proof.
  apply gd_rejects_non_finite_start.
  exists nan. split; [right; left; reflexivity | reflexivity].
Defined.

(** Started at the minimiser, the run evaluates the objective once and
    returns [true]. *)
Lemma gd_converged_at_start_on_sample :
  gd_basic_impl env f 5 [0; 0] (Some clipped) Sample.start =
    Some ({| res_success := true;
             res_out_vals := [0; 0];
             res_settings := Some clipped;
             res_iter := 0%N |},
          {| opt_data := 1%nat; objfn_calls := [([0; 0], Some [0; 0])] |})
  /\ objfn_calls {| opt_data := 1%nat; objfn_calls := [([0; 0], Some [0; 0])] |}
     = objfn_calls Sample.start ++ [([0; 0], Some [0; 0])].
Proof.
  apply (gd_converged_at_start env f 5 [0; 0] (Some clipped) Sample.start
           0 (Some [0; 0])
           {| opt_data := 1%nat; objfn_calls := [([0; 0], Some [0; 0])] |});
    reflexivity.
Defined.

(** Method code 5 gets both accumulators, of the length of the point. *)
Lemma accumulators_follow_method_on_sample :
  st_adam_vec_m
    (fst (gd_init env f (Sample.run_settings 5 0x1p-3 10 false false) bt
            [1; 1] Sample.start)) = [0; 0]
  /\ st_adam_vec_v
    (fst (gd_init env f (Sample.run_settings 5 0x1p-3 10 false false) bt
            [1; 1] Sample.start)) = [0; 0].
Proof.
  apply (accumulators_follow_method env f
           (Sample.run_settings 5 0x1p-3 10 false false) bt [1; 1] Sample.start).
  left. reflexivity.
Defined.

(** The rejected start is handed back as it came. *)
Lemma gd_early_returns_keep_vector_on_sample :
  exists res w',
    gd_basic_impl env f 5 [1; nan] (Some clipped) Sample.start = Some (res, w')
    /\ res_out_vals res = [1; nan]
    /\ res_settings res = Some clipped
    /\ w' = Sample.start.
Proof.
  apply (gd_early_returns_keep_vector env f 5 [1; nan] (Some clipped)
           Sample.start
           (fst (gd_init env f clipped (bounds_type_of env clipped [1; nan])
                   [1; nan] Sample.start))
           (snd (gd_init env f clipped (bounds_type_of env clipped [1; nan])
                   [1; nan] Sample.start)));
    reflexivity.
Defined.

(** The first iteration from [(1, 1)] moves to [(3/4, 3/4)], where the
    objective returns the gradient [(3/2, 3/2)]; [grad_err] is the norm of
    its clipped form [(1/2, 1/2)], below the norm of the raw gradient. *)
Lemma grad_err_is_norm_of_clipped_gradient_on_sample :
  st_grad_p (fst (gd_iteration env f clipped bt s0 w0)) = [0x1p-1; 0x1p-1]
  /\ st_grad_err (fst (gd_iteration env f clipped bt s0 w0))
     = l2norm_seq [0x1p-1; 0x1p-1]
  /\ (l2norm_seq [0x1p-1; 0x1p-1] <? l2norm_seq [0x1.8p0; 0x1.8p0]) = true.
Proof.
  edestruct (grad_err_is_norm_of_clipped_gradient env f clipped bt)
    as [Hstep _].
  edestruct (Hstep s0 w0) as (Hp & Herr & _);
    [lazy; reflexivity | lazy; reflexivity | reflexivity | ].
  split; [exact Hp | ]. split; [exact Herr | reflexivity].
Defined.

(** In that iteration the stored [grad_p] is the capped gradient, within
    the bound one half, and the baseline [grad] is the unclipped starting
    gradient [(2, 2)]. *)
Lemma clipping_only_post_step_on_sample :
  st_grad_p (fst (gd_iteration env f clipped bt s0 w0)) = [0x1p-1; 0x1p-1]
  /\ (0x1p-1 <? linfnorm (st_grad_p (fst (gd_iteration env f clipped bt s0 w0))))
     = false
  /\ st_grad (fst (gd_iteration env f clipped bt s0 w0)) = [2; 2].
Proof.
  edestruct (clipping_only_post_step env f clipped bt
               Sample.clip_measure Sample.clip_threshold s0 w0)
    as (Hg & _ & Hp & Hb & _); [lazy; reflexivity | lazy; reflexivity | ].
  split; [exact (Hp eq_refl) | ].
  split; [exact (Hb eq_refl cap_clipping_meets_contract eq_refl) | exact Hg].
Defined.

(** At [(1, 1)] every denominator is positive, and the relative change
    of the first iteration is the L1 norm of the quotients. *)
Lemma rel_sol_change_never_divides_by_zero_on_sample :
  Forall (fun d => (0 <? d) = true /\ (d =? 0) = false)
    (BMO_MATOPS_ARRAY_ADD_SCALAR (BMO_MATOPS_ABS (st_x s0)) rel_sol_change_floor)
  /\ st_rel_sol_change (fst (gd_iteration env f clipped bt s0 w0))
     = l1norm_seq
         (BMO_MATOPS_ARRAY_DIV_ARRAY [-0x1p-2; -0x1p-2]
            [1 + rel_sol_change_floor; 1 + rel_sol_change_floor]).
Proof.
  destruct (rel_sol_change_never_divides_by_zero env f clipped bt s0 w0)
    as (Hrel & Hden).
  split; [exact (proj1 (Hden eq_refl)) | exact Hrel].
Defined.

End Runs.

(** * Further facts about binary64 arithmetic *)

Module FloatEdge.
Local Open Scope float_scope.

Lemma is_nan_true (x : float) : is_nan x = true -> Prim2SF x = S754_nan.
Proof.
  unfold is_nan. rewrite eqb_spec. unfold SFeqb. intros H.
  destruct (Prim2SF x) as [s | s | | s m e] eqn:Hx; try reflexivity;
    rewrite FloatFacts.SFcompare_refl in H by discriminate; discriminate.
Qed.

(** Every comparison with a NaN is false. *)
Lemma nan_compares_false (x t : float) :
  is_nan x = true ->
  (x <? t) = false /\ (t <? x) = false
  /\ (x <=? t) = false /\ (t <=? x) = false.
Proof.
  intros H. apply is_nan_true in H.
  rewrite !ltb_spec, !leb_spec, H. unfold SFltb, SFleb.
  destruct (Prim2SF t) as [s | s | | s m e]; repeat split; reflexivity.
Qed.

(** [a <= b] excludes [b < a]. *)
Lemma leb_not_ltb (a b : float) : (a <=? b) = true -> (b <? a) = false.
Proof.
  rewrite ltb_spec, leb_spec. unfold SFltb, SFleb.
  rewrite (FloatFacts.SFcompare_antisym (Prim2SF a) (Prim2SF b)).
  destruct (SFcompare (Prim2SF a) (Prim2SF b)) as [[ | | ] | ];
    cbn [option_map CompOpp]; congruence.
Qed.

(** Subtracting [+0] changes nothing, NaN and signed zeros included. *)
Lemma sub_zero (x : float) : x - 0 = x.
Proof.
  apply Prim2SF_inj. rewrite sub_spec, FloatFacts.Prim2SF_zero.
  unfold SF64sub.
  destruct (Prim2SF x) as [[ | ] | [ | ] | | s m e]; reflexivity.
Qed.

(** A finite number minus itself is [+0]. *)
Lemma sub_self (x : float) : is_finite x = true -> x - x = 0.
Proof.
  intros H. apply FloatFacts.is_finite_spec in H.
  apply Prim2SF_inj. rewrite sub_spec, FloatFacts.Prim2SF_zero.
  unfold SF64sub.
  destruct (Prim2SF x) as [[ | ] | s | | s m e]; try discriminate;
    try reflexivity.
  cbn [SFsub]. rewrite Z.min_id. unfold shl_align.
  rewrite !Z.sub_diag. reflexivity.
Qed.

(** [+0] divided by a strictly positive number is [+0]. *)
Lemma zero_div_positive (d : float) : (0 <? d) = true -> 0 / d = 0.
Proof.
  intros H. apply FloatFacts.ltb_zero_positive in H.
  apply Prim2SF_inj. rewrite div_spec, FloatFacts.Prim2SF_zero.
  unfold SF64div.
  destruct (Prim2SF d) as [s | [ | ] | | [ | ] m e]; try discriminate;
    reflexivity.
Qed.

Lemma vec_sub_zero (x : Vec_t) :
  vec_sub x (BMO_MATOPS_ZERO_VEC (length x)) = x.
Proof.
  unfold vec_sub, BMO_MATOPS_ZERO_VEC.
  induction x as [ | a x IH]; cbn [length repeat map2]; [reflexivity | ].
  rewrite sub_zero, IH. reflexivity.
Qed.

Lemma vec_sub_self (x : Vec_t) :
  BMO_MATOPS_IS_FINITE x = true ->
  vec_sub x x = BMO_MATOPS_ZERO_VEC (length x).
Proof.
  unfold vec_sub, BMO_MATOPS_ZERO_VEC, BMO_MATOPS_IS_FINITE.
  induction x as [ | a x IH]; cbn [length repeat map2 forallb]; intros H;
    [reflexivity | ].
  apply andb_prop in H. destruct H as [Ha Hx].
  rewrite (sub_self a Ha), (IH Hx). reflexivity.
Qed.

Lemma zero_vec_div (den : Vec_t) :
  Forall (fun d => (0 <? d) = true /\ (d =? 0) = false) den ->
  BMO_MATOPS_ARRAY_DIV_ARRAY (BMO_MATOPS_ZERO_VEC (length den)) den
  = BMO_MATOPS_ZERO_VEC (length den).
Proof.
  unfold BMO_MATOPS_ARRAY_DIV_ARRAY, BMO_MATOPS_ZERO_VEC.
  induction 1 as [ | d den [Hd _] _ IH]; cbn [length repeat map2];
    [reflexivity | ].
  rewrite (zero_div_positive d Hd), IH. reflexivity.
Qed.




End FloatEdge.

(** * Edge behaviour and invariants of the driver *)

Section DriverEdge.
Context {GdParams AlgoParams UserData : Type}.
Variable E : collaborators GdParams AlgoParams UserData.
Variable opt_objfn : objfn_t UserData.

Local Abbreviation settings_t := (algo_settings_t GdParams AlgoParams).
Local Abbreviation world := (World UserData).
Local Abbreviation state := (gd_state GdParams).

(** A property of the world that the loop body preserves holds when the
    loop returns. *)
Lemma gd_loop_world_invariant (settings : settings_t) (bt : VecInt_t)
    (I : world -> Prop) (fuel : nat) :
  (forall s w, I w -> I (snd (gd_iteration E opt_objfn settings bt s w))) ->
  forall (s : state) (w : world) (s' : state) (w' : world),
    I w -> gd_loop E opt_objfn settings bt fuel s w = Some (s', w') -> I w'.
Proof.
  intros Hstep. induction fuel as [ | fuel IH]; intros s w s' w' Hw H;
    cbn [gd_loop] in H; destruct (loop_guard settings s); try discriminate.
  - injection H as <- <-. assumption.
  - specialize (Hstep s w Hw).
    destruct (gd_iteration E opt_objfn settings bt s w) as [s1 w1].
    apply (IH s1 w1 s' w' Hstep H).
  - injection H as <- <-. assumption.
Qed.

(** ** The cost of a run in objective evaluations *)

Section Evaluations.
Variable settings : settings_t.
Variable bt : VecInt_t.

(** The update rule does not invoke the objective. *)
Hypothesis update_is_silent :
  forall x g gp d it gs m v (w : world),
    objfn_calls
      (snd (gd_update E x g gp d (run_box_objfn E opt_objfn settings bt)
              it gs m v w))
    = objfn_calls w.

Lemma gd_iteration_log (s : state) (w : world) :
  exists pt,
    objfn_calls (snd (gd_iteration E opt_objfn settings bt s w)) =
    objfn_calls w ++ [(pt, Some (st_grad_p s))].
Proof.
  destruct (gd_iteration_calls E opt_objfn settings bt s w)
    as (d_p & gs & m & v & w1 & r & ga & w2 & Hu & Hb).
  rewrite (gd_iteration_eq E opt_objfn settings bt s w _ _ _ _ _ _ _ _ Hu Hb).
  cbn [snd].
  pose proof (box_objfn_calls E opt_objfn (vals_bound settings) bt
                (lower_bounds settings) (upper_bounds settings)
                (vec_sub (st_x s) d_p) (Some (st_grad_p s)) w1) as Hc.
  unfold run_box_objfn in Hb. rewrite Hb in Hc. cbn [snd] in Hc.
  pose proof (update_is_silent (st_x s) (st_grad s) (st_grad_p s) (st_d s)
                (size_t_incr (st_iter s)) (st_gd_settings s)
                (st_adam_vec_m s) (st_adam_vec_v s) w) as Hs.
  rewrite Hu in Hs. cbn [snd] in Hs.
  eexists. rewrite Hc, Hs. reflexivity.
Qed.

Lemma gd_loop_log (fuel : nat) :
  forall (s : state) (w : world) (s' : state) (w' : world),
    (iter_max settings < size_t_modulus)%N ->
    (st_iter s <= iter_max settings)%N ->
    gd_loop E opt_objfn settings bt fuel s w = Some (s', w') ->
    (st_iter s <= st_iter s' <= iter_max settings)%N
    /\ exists calls,
         objfn_calls w' = objfn_calls w ++ calls
         /\ length calls = N.to_nat (st_iter s' - st_iter s)
         /\ Forall (fun c => snd c <> None) calls.
Proof.
  induction fuel as [ | fuel IH]; intros s w s' w' Hmax Hle H;
    cbn [gd_loop] in H; destruct (loop_guard settings s) eqn:Hg;
    try discriminate.
  - injection H as <- <-. split; [lia | ]. exists [].
    rewrite app_nil_r, N.sub_diag. repeat split. constructor.
  - apply loop_guard_iff in Hg. destruct Hg as (_ & _ & Hlt).
    pose proof (gd_iteration_iter E opt_objfn settings bt s w) as Hit.
    rewrite (size_t_incr_no_wrap settings _ Hlt Hmax) in Hit.
    destruct (gd_iteration_log s w) as (pt & Hlog).
    destruct (gd_iteration E opt_objfn settings bt s w) as [s1 w1].
    cbn [fst snd] in Hit, Hlog.
    destruct (IH s1 w1 s' w' Hmax ltac:(lia) H)
      as (Hrange & calls & Hcalls & Hlen & Hall).
    split; [lia | ].
    exists ((pt, Some (st_grad_p s)) :: calls).
    rewrite Hcalls, Hlog, <- app_assoc. cbn [app length].
    repeat split; [lia | ]. constructor; [discriminate | assumption].
  - injection H as <- <-. split; [lia | ]. exists [].
    rewrite app_nil_r, N.sub_diag. repeat split. constructor.
Qed.

(** X1. When the update rule does not invoke the objective, the driver
    has invoked it exactly [iter + 1] times by the time the loop returns:
    once at initialisation and once per iteration, every time asking for
    the gradient. *)
Theorem gd_evaluates_once_per_iteration (fuel : nat) (init : Vec_t)
    (w : world) (s : state) (w1 : world) :
  (iter_max settings < size_t_modulus)%N ->
  gd_loop E opt_objfn settings bt fuel
    (fst (gd_init E opt_objfn settings bt init w))
    (snd (gd_init E opt_objfn settings bt init w)) = Some (s, w1) ->
  exists calls,
    objfn_calls w1 = objfn_calls w ++ calls
    /\ length calls = S (N.to_nat (st_iter s))
    /\ Forall (fun c => snd c <> None) calls.
Proof.
  intros Hmax Hrun.
  pose proof (gd_init_state E opt_objfn settings bt init w) as Hinit.
  cbv zeta in Hinit. rewrite Hinit in Hrun. cbn [fst snd] in Hrun.
  apply gd_loop_log in Hrun; [ | assumption | cbn [st_iter]; lia].
  destruct Hrun as (_ & calls & Hcalls & Hlen & Hall).
  cbn [st_iter] in Hlen. rewrite N.sub_0_r in Hlen.
  pose proof (box_objfn_calls E opt_objfn (vals_bound settings) bt
                (lower_bounds settings) (upper_bounds settings)
                (if vals_bound settings
                 then transform E init bt
                        (lower_bounds settings) (upper_bounds settings)
                 else init)
                (Some (fresh_vec E (BMO_MATOPS_SIZE init))) w) as Hc.
  unfold run_box_objfn in Hcalls. rewrite Hc, <- app_assoc in Hcalls.
  eexists. split; [exact Hcalls | ]. cbn [app length].
  split; [lia | ]. constructor; [discriminate | assumption].
Qed.
End Evaluations.

(** ** Where the objective is evaluated *)

(** X2. With bounds active, the driver evaluates the objective only at
    inverse-transformed points. For any property [P] that every output of
    [inv_transform] has: if the calls logged before the run are at points
    with [P], the update rule adds only such calls, and the reporter adds
    only such calls when the point it is given has [P], then every call
    logged when the run returns is at a point with [P]. *)
Theorem gd_evaluates_inverse_transformed_points (P : Vec_t -> Prop)
    (fuel : nat) (init : Vec_t) (settings_inp : option settings_t)
    (w : world) (res : gd_result GdParams AlgoParams) (w' : world) :
  let settings := settings_of E settings_inp in
  let bt := bounds_type_of E settings init in
  let ok := fun w0 : world => Forall (fun c => P (fst c)) (objfn_calls w0) in
  vals_bound settings = true ->
  (forall x,
     P (inv_transform E x bt (lower_bounds settings) (upper_bounds settings))) ->
  (forall x g gp d it gs m v w0,
     ok w0 ->
     ok (snd (gd_update E x g gp d (run_box_objfn E opt_objfn settings bt)
                it gs m v w0))) ->
  (forall out x b err tol it cap switch sinp w0,
     P x -> ok w0 ->
     ok (snd (error_reporting E out x (invoke_objfn opt_objfn) b err tol
                it cap switch sinp w0))) ->
  ok w ->
  gd_basic_impl E opt_objfn fuel init settings_inp w = Some (res, w') ->
  ok w'.
Proof.
  cbv zeta.
  set (settings := settings_of E settings_inp).
  set (bt := bounds_type_of E settings init).
  intros Hvb Hinv Hupd Hrep Hw Hrun.
  assert (Hbox : forall x g w0,
             Forall (fun c => P (fst c)) (objfn_calls w0) ->
             Forall (fun c => P (fst c))
               (objfn_calls
                  (snd (run_box_objfn E opt_objfn settings bt x g w0)))).
  { intros x g w0 H0. unfold run_box_objfn.
    rewrite box_objfn_calls, Hvb. apply Forall_app. split; [exact H0 | ].
    constructor; [apply Hinv | constructor]. }
  destruct (BMO_MATOPS_IS_FINITE init) eqn:Hfin.
  - destruct (gd_init E opt_objfn settings bt init w) as [s0 w0] eqn:Hinit.
    assert (H0 : Forall (fun c => P (fst c)) (objfn_calls w0)).
    { pose proof (gd_init_state E opt_objfn settings bt init w) as Hst.
      cbv zeta in Hst. rewrite Hinit in Hst. injection Hst as _ ->.
      apply Hbox, Hw. }
    destruct (st_grad_err s0 <=? grad_err_tol settings)%float eqn:Hle.
    + rewrite (gd_basic_impl_converged E opt_objfn fuel init settings_inp w
                 s0 w0 Hfin Hinit Hle) in Hrun.
      injection Hrun as _ <-. exact H0.
    + rewrite (gd_basic_impl_looping E opt_objfn fuel init settings_inp w
                 s0 w0 Hfin Hinit Hle) in Hrun.
      fold settings bt in Hrun.
      destruct (gd_loop E opt_objfn settings bt fuel s0 w0)
        as [[s w1] | ] eqn:Hloop; [ | discriminate].
      assert (H1 : Forall (fun c => P (fst c)) (objfn_calls w1)).
      { apply (gd_loop_world_invariant settings bt
                 (fun w0 => Forall (fun c => P (fst c)) (objfn_calls w0))
                 fuel) with (3 := Hloop); [ | exact H0].
        intros s1 w2 H2.
        destruct (gd_iteration_calls E opt_objfn settings bt s1 w2)
          as (d_p & gs & m & v & w3 & r & ga & w4 & Hu & Hb).
        rewrite (gd_iteration_eq E opt_objfn settings bt s1 w2
                   _ _ _ _ _ _ _ _ Hu Hb).
        cbn [snd].
        pose proof (Hbox (vec_sub (st_x s1) d_p) (Some (st_grad_p s1)) w3) as H4.
        rewrite Hb in H4. cbn [snd] in H4. apply H4.
        pose proof (Hupd (st_x s1) (st_grad s1) (st_grad_p s1) (st_d s1)
                      (size_t_incr (st_iter s1)) (st_gd_settings s1)
                      (st_adam_vec_m s1) (st_adam_vec_v s1) w2 H2) as H3.
        rewrite Hu in H3. exact H3. }
      injection Hrun as Hrun. rewrite gd_finish_eq, Hvb in Hrun.
      pose proof (Hrep init
                    (inv_transform E (st_x s) bt
                       (lower_bounds settings) (upper_bounds settings))
                    false (st_grad_err s) (grad_err_tol settings) (st_iter s)
                    (iter_max settings) (conv_failure_switch settings)
                    settings_inp w1 (Hinv _) H1) as H2.
      destruct (error_reporting E init _ _ _ _ _ _ _ _ settings_inp w1)
        as [[[out okf] sout] w2].
      injection Hrun as _ <-. exact H2.
  - rewrite (gd_basic_impl_non_finite E opt_objfn fuel init settings_inp w Hfin)
      in Hrun.
    injection Hrun as _ <-. exact Hw.
Qed.

(** ** NaN and degenerate tolerances *)

(** X3. A NaN gradient norm at the start, or a NaN [grad_err_tol], is
    neither taken for convergence nor iterated on: the run goes straight
    from the initialisation to [error_reporting], with [iter = 0]. *)
Theorem nan_at_start_skips_loop (fuel : nat) (init : Vec_t)
    (settings_inp : option settings_t) (w : world) (s0 : state) (w0 : world) :
  let settings := settings_of E settings_inp in
  let bt := bounds_type_of E settings init in
  BMO_MATOPS_IS_FINITE init = true ->
  gd_init E opt_objfn settings bt init w = (s0, w0) ->
  is_nan (st_grad_err s0) = true \/ is_nan (grad_err_tol settings) = true ->
  gd_basic_impl E opt_objfn fuel init settings_inp w =
    Some (gd_finish E opt_objfn settings bt init settings_inp s0 w0)
  /\ res_iter (fst (gd_finish E opt_objfn settings bt init settings_inp s0 w0))
     = 0%N.
Proof.
  cbv zeta. intros Hfin Hinit Hnan.
  set (settings := settings_of E settings_inp) in *.
  assert (Hs0 : st_iter s0 = 0%N).
  { pose proof (gd_init_state E opt_objfn settings
                  (bounds_type_of E settings init) init w) as Hst.
    cbv zeta in Hst. rewrite Hinit in Hst. injection Hst as -> _. reflexivity. }
  assert (Hcmp : (st_grad_err s0 <=? grad_err_tol settings)%float = false
                 /\ (grad_err_tol settings <? st_grad_err s0)%float = false).
  { destruct Hnan as [Hn | Hn].
    - destruct (FloatEdge.nan_compares_false _ (grad_err_tol settings) Hn)
        as (_ & H2 & H3 & _). split; assumption.
    - destruct (FloatEdge.nan_compares_false _ (st_grad_err s0) Hn)
        as (H1 & _ & _ & H4). split; assumption. }
  destruct Hcmp as [Hle Hgt].
  rewrite (gd_basic_impl_looping E opt_objfn fuel init settings_inp w s0 w0
             Hfin Hinit Hle).
  fold settings.
  assert (Hg : loop_guard settings s0 = false)
    by (unfold loop_guard; rewrite Hgt; reflexivity).
  split.
  - destruct fuel; cbn [gd_loop]; rewrite Hg; reflexivity.
  - rewrite gd_finish_iter. exact Hs0.
Qed.

(** X4. An iteration that leaves a NaN gradient norm or a NaN relative
    change is the last one: the loop returns the state it produced. *)
Theorem nan_stops_loop (settings : settings_t) (bt : VecInt_t) (fuel : nat)
    (s : state) (w : world) :
  loop_guard settings s = true ->
  is_nan (st_grad_err (fst (gd_iteration E opt_objfn settings bt s w))) = true
  \/ is_nan (st_rel_sol_change (fst (gd_iteration E opt_objfn settings bt s w)))
     = true ->
  gd_loop E opt_objfn settings bt (S fuel) s w =
  Some (gd_iteration E opt_objfn settings bt s w).
Proof.
  intros Hg Hnan. cbn [gd_loop]. rewrite Hg.
  destruct (gd_iteration E opt_objfn settings bt s w) as [s' w'].
  cbn [fst] in Hnan.
  assert (Hg' : loop_guard settings s' = false).
  { unfold loop_guard. destruct Hnan as [Hn | Hn].
    - destruct (FloatEdge.nan_compares_false _ (grad_err_tol settings) Hn)
        as (_ & H2 & _). rewrite H2. reflexivity.
    - destruct (FloatEdge.nan_compares_false _ (rel_sol_change_tol settings) Hn)
        as (_ & H2 & _). rewrite H2, andb_false_r. reflexivity. }
  destruct fuel; cbn [gd_loop]; rewrite Hg'; reflexivity.
Qed.

(** X5. The relative change starts at [1.0], so a [rel_sol_change_tol] of
    at least one (or a NaN one) leaves no room for an iteration: whatever
    the gradient and the cap, a run that does not converge at the start
    goes straight to [error_reporting], with [iter = 0]. *)
Theorem rel_tol_of_one_skips_loop (fuel : nat) (init : Vec_t)
    (settings_inp : option settings_t) (w : world) (s0 : state) (w0 : world) :
  let settings := settings_of E settings_inp in
  let bt := bounds_type_of E settings init in
  BMO_MATOPS_IS_FINITE init = true ->
  gd_init E opt_objfn settings bt init w = (s0, w0) ->
  (st_grad_err s0 <=? grad_err_tol settings)%float = false ->
  (1 <=? rel_sol_change_tol settings)%float = true
  \/ is_nan (rel_sol_change_tol settings) = true ->
  gd_basic_impl E opt_objfn fuel init settings_inp w =
    Some (gd_finish E opt_objfn settings bt init settings_inp s0 w0)
  /\ res_iter (fst (gd_finish E opt_objfn settings bt init settings_inp s0 w0))
     = 0%N.
Proof.
  cbv zeta. intros Hfin Hinit Hle Htol.
  set (settings := settings_of E settings_inp) in *.
  pose proof (gd_init_state E opt_objfn settings
                (bounds_type_of E settings init) init w) as Hst.
  cbv zeta in Hst. rewrite Hinit in Hst.
  assert (Hs0 : st_iter s0 = 0%N) by (injection Hst as -> _; reflexivity).
  assert (Hrel : st_rel_sol_change s0 = 1%float)
    by (injection Hst as -> _; reflexivity).
  rewrite (gd_basic_impl_looping E opt_objfn fuel init settings_inp w s0 w0
             Hfin Hinit Hle).
  fold settings.
  assert (Hg : loop_guard settings s0 = false).
  { unfold loop_guard. rewrite Hrel.
    assert (H1 : (rel_sol_change_tol settings <? 1)%float = false).
    { destruct Htol as [H | H].
      - apply FloatEdge.leb_not_ltb, H.
      - apply (FloatEdge.nan_compares_false _ 1%float H). }
    rewrite H1, andb_false_r. reflexivity. }
  split.
  - destruct fuel; cbn [gd_loop]; rewrite Hg; reflexivity.
  - rewrite gd_finish_iter. exact Hs0.
Qed.

(** ** A step of zero *)

(** X6. When the update rule returns the zero step at a finite point, the
    point stays where it is and the relative change is the L1 norm of a
    zero vector; for a norm that is zero there and a tolerance that is not
    negative the loop condition fails, so that iteration is the last. *)
Theorem zero_step_stops_loop (settings : settings_t) (bt : VecInt_t)
    (s : state) (w : world) (gs : gd_settings_t GdParams) (m v : Vec_t)
    (w1 : world) :
  gd_update E (st_x s) (st_grad s) (st_grad_p s) (st_d s)
    (run_box_objfn E opt_objfn settings bt)
    (size_t_incr (st_iter s)) (st_gd_settings s)
    (st_adam_vec_m s) (st_adam_vec_v s) w
  = ((BMO_MATOPS_ZERO_VEC (length (st_x s)), gs, m, v), w1) ->
  BMO_MATOPS_IS_FINITE (st_x s) = true ->
  BMO_MATOPS_L1NORM E (BMO_MATOPS_ZERO_VEC (length (st_x s))) = 0%float ->
  (rel_sol_change_tol settings <? 0)%float = false ->
  let s' := fst (gd_iteration E opt_objfn settings bt s w) in
  st_x s' = st_x s
  /\ st_rel_sol_change s' = 0%float
  /\ loop_guard settings s' = false
  /\ (forall fuel,
        loop_guard settings s = true ->
        gd_loop E opt_objfn settings bt (S fuel) s w =
        Some (gd_iteration E opt_objfn settings bt s w)).
Proof.
  intros Hu Hfin Hnorm Htol. cbv zeta.
  destruct (run_box_objfn E opt_objfn settings bt
              (vec_sub (st_x s) (BMO_MATOPS_ZERO_VEC (length (st_x s))))
              (Some (st_grad_p s)) w1) as [[r ga] w2] eqn:Hb.
  rewrite (gd_iteration_eq E opt_objfn settings bt s w _ _ _ _ _ _ _ _ Hu Hb).
  cbn [fst st_x st_rel_sol_change].
  assert (Hrel : rel_sol_change_of E
                   (vec_sub (st_x s) (BMO_MATOPS_ZERO_VEC (length (st_x s))))
                   (st_x s) = 0%float).
  { unfold rel_sol_change_of.
    rewrite FloatEdge.vec_sub_zero, (FloatEdge.vec_sub_self _ Hfin).
    pose proof (denominators_positive (st_x s) Hfin) as Hden.
    assert (Hlen : length (BMO_MATOPS_ARRAY_ADD_SCALAR
                             (BMO_MATOPS_ABS (st_x s)) rel_sol_change_floor)
                   = length (st_x s)).
    { unfold BMO_MATOPS_ARRAY_ADD_SCALAR, BMO_MATOPS_ABS.
      rewrite !length_map. reflexivity. }
    rewrite <- Hlen at 1. rewrite (FloatEdge.zero_vec_div _ Hden), Hlen.
    exact Hnorm. }
  assert (Hg : loop_guard settings
                 {| st_x := vec_sub (st_x s)
                              (BMO_MATOPS_ZERO_VEC (length (st_x s)));
                    st_d := BMO_MATOPS_ZERO_VEC (length (st_x s));
                    st_grad := st_grad_p s;
                    st_grad_p := clip_post_step E gs (deref (st_grad_p s) ga);
                    st_grad_err :=
                      BMO_MATOPS_L2NORM E
                        (clip_post_step E gs (deref (st_grad_p s) ga));
                    st_rel_sol_change :=
                      rel_sol_change_of E
                        (vec_sub (st_x s)
                           (BMO_MATOPS_ZERO_VEC (length (st_x s))))
                        (st_x s);
                    st_iter := size_t_incr (st_iter s);
                    st_gd_settings := gs;
                    st_adam_vec_m := m;
                    st_adam_vec_v := v |} = false).
  { unfold loop_guard. cbn [st_rel_sol_change]. rewrite Hrel, Htol.
    rewrite andb_false_r. reflexivity. }
  split; [apply FloatEdge.vec_sub_zero | ].
  split; [exact Hrel | ]. split; [exact Hg | ].
  intros fuel Hgs. cbn [gd_loop]. rewrite Hgs.
  rewrite (gd_iteration_eq E opt_objfn settings bt s w _ _ _ _ _ _ _ _ Hu Hb).
  destruct fuel; cbn [gd_loop]; rewrite Hg; reflexivity.
Qed.

(** ** Why the loop returned *)

Lemma gd_loop_iter_range (settings : settings_t) (bt : VecInt_t) (fuel : nat) :
  forall (s : state) (w : world) (s' : state) (w' : world),
    (iter_max settings < size_t_modulus)%N ->
    (st_iter s <= iter_max settings)%N ->
    gd_loop E opt_objfn settings bt fuel s w = Some (s', w') ->
    (st_iter s <= st_iter s' <= iter_max settings)%N.
Proof.
  induction fuel as [ | fuel IH]; intros s w s' w' Hmax Hle H;
    cbn [gd_loop] in H; destruct (loop_guard settings s) eqn:Hg;
    try discriminate.
  - injection H as <- <-. lia.
  - apply loop_guard_iff in Hg. destruct Hg as (_ & _ & Hlt).
    pose proof (gd_iteration_iter E opt_objfn settings bt s w) as Hit.
    rewrite (size_t_incr_no_wrap settings _ Hlt Hmax) in Hit.
    destruct (gd_iteration E opt_objfn settings bt s w) as [s1 w1].
    cbn [fst] in Hit.
    pose proof (IH s1 w1 s' w' Hmax ltac:(lia) H). lia.
  - injection H as <- <-. lia.
Qed.

(** X7. The counter never runs past the cap, and the loop returns for one
    of two reasons: a criterion is met (or undecidable), or the budget is
    spent. A state returned below the cap fails one of the two float
    tests; a state returned with both tests still true has [iter] equal to
    [iter_max]. *)
Theorem loop_exit_reason (settings : settings_t) (bt : VecInt_t) (fuel : nat)
    (s : state) (w : world) (s' : state) (w' : world) :
  (iter_max settings < size_t_modulus)%N ->
  (st_iter s <= iter_max settings)%N ->
  gd_loop E opt_objfn settings bt fuel s w = Some (s', w') ->
  (st_iter s <= st_iter s' <= iter_max settings)%N
  /\ ((st_iter s' < iter_max settings)%N ->
      (grad_err_tol settings <? st_grad_err s')%float = false
      \/ (rel_sol_change_tol settings <? st_rel_sol_change s')%float = false)
  /\ ((grad_err_tol settings <? st_grad_err s')%float = true ->
      (rel_sol_change_tol settings <? st_rel_sol_change s')%float = true ->
      st_iter s' = iter_max settings).
Proof.
  intros Hmax Hle Hrun.
  pose proof (gd_loop_iter_range settings bt fuel s w s' w' Hmax Hle Hrun)
    as Hrange.
  destruct (gd_loop_sound E opt_objfn settings bt fuel s w s' w' Hrun)
    as (n & _ & _ & Hg & _).
  unfold loop_guard in Hg.
  split; [exact Hrange | ]. split.
  - intros Hlt. apply N.ltb_lt in Hlt. rewrite Hlt, andb_true_r in Hg.
    apply andb_false_iff in Hg. exact Hg.
  - intros H1 H2. rewrite H1, H2 in Hg. cbn [andb] in Hg.
    apply N.ltb_ge in Hg. lia.
Qed.

(** ** What only the update rule writes *)

(** X8. The driver itself never writes the accumulators or its copy of
    [gd_settings]: it stores what [gd_update] hands back. So with an update
    rule that hands all three back as it got them, they are the same when
    the loop returns as when it was entered. *)
Theorem update_rule_alone_writes_accumulators (settings : settings_t)
    (bt : VecInt_t) (fuel : nat) (s : state) (w : world) (s' : state)
    (w' : world) :
  (forall x g gp d it gs m v w0,
     let out :=
       fst (gd_update E x g gp d (run_box_objfn E opt_objfn settings bt)
              it gs m v w0) in
     snd (fst (fst out)) = gs /\ snd (fst out) = m /\ snd out = v) ->
  gd_loop E opt_objfn settings bt fuel s w = Some (s', w') ->
  st_gd_settings s' = st_gd_settings s
  /\ st_adam_vec_m s' = st_adam_vec_m s
  /\ st_adam_vec_v s' = st_adam_vec_v s.
Proof.
  intros Hupd Hrun.
  apply (gd_loop_invariant E opt_objfn settings bt
           (fun s1 => st_gd_settings s1 = st_gd_settings s
                      /\ st_adam_vec_m s1 = st_adam_vec_m s
                      /\ st_adam_vec_v s1 = st_adam_vec_v s)
           fuel) with (3 := Hrun); [ | repeat split].
  intros s1 w1 (Hgs & Hm & Hv).
  destruct (gd_iteration_calls E opt_objfn settings bt s1 w1)
    as (d_p & gs & m & v & w2 & r & ga & w3 & Hu & Hb).
  rewrite (gd_iteration_eq E opt_objfn settings bt s1 w1 _ _ _ _ _ _ _ _ Hu Hb).
  cbn [fst st_gd_settings st_adam_vec_m st_adam_vec_v].
  pose proof (Hupd (st_x s1) (st_grad s1) (st_grad_p s1) (st_d s1)
                (size_t_incr (st_iter s1)) (st_gd_settings s1)
                (st_adam_vec_m s1) (st_adam_vec_v s1) w1) as H.
  cbv zeta in H. rewrite Hu in H. cbn [fst snd] in H.
  destruct H as (-> & -> & ->). repeat split; assumption.
Qed.

(** ** Unbounded coordinates under the bounds flag *)


End DriverEdge.

(** * Concrete runs at the edges *)

Module EdgeRuns.
Local Open Scope float_scope.

Local Abbreviation env := Sample.run_env.
Local Abbreviation f := Sample.sum_of_squares.
Local Abbreviation start := Sample.start.

(** A run capped at three iterations from [(1, 1)] has evaluated the
    objective four times when the loop returns. *)
Lemma gd_evaluates_once_per_iteration_on_sample :
  exists calls,
    objfn_calls
      (snd (gd_iterations env f (Sample.run_settings 0 0x1p-3 3 false false)
              Sample.bt 3
              (fst (gd_init env f (Sample.run_settings 0 0x1p-3 3 false false)
                      Sample.bt [1; 1] start))
              (snd (gd_init env f (Sample.run_settings 0 0x1p-3 3 false false)
                      Sample.bt [1; 1] start))))
    = objfn_calls start ++ calls
    /\ length calls = 4%nat
    /\ Forall (fun c => snd c <> None) calls.
Proof.
  apply (gd_evaluates_once_per_iteration env f
           (Sample.run_settings 0 0x1p-3 3 false false) Sample.bt
           (fun x g gp d it gs m v w => eq_refl) 3 [1; 1] start
           (fst (gd_iterations env f (Sample.run_settings 0 0x1p-3 3 false false)
                   Sample.bt 3
                   (fst (gd_init env f
                           (Sample.run_settings 0 0x1p-3 3 false false)
                           Sample.bt [1; 1] start))
                   (snd (gd_init env f
                           (Sample.run_settings 0 0x1p-3 3 false false)
                           Sample.bt [1; 1] start)))));
    [reflexivity | vm_compute; reflexivity].
Defined.

(** With the capping inverse transform, a bounded run from [(2, 2)]
    evaluates the objective inside the unit box only. *)
Lemma gd_evaluates_inverse_transformed_points_on_sample :
  match gd_basic_impl Edge.boxed_env f 5 [2; 2]
          (Some (Sample.run_settings 0 0x1p-3 2 false true)) start with
  | Some (_, w') =>
      Forall (fun c => Edge.inside_unit_box (fst c)) (objfn_calls w')
  | None => False
  end.
Proof.
  destruct (gd_basic_impl Edge.boxed_env f 5 [2; 2]
              (Some (Sample.run_settings 0 0x1p-3 2 false true)) start)
    as [[res w'] | ] eqn:Hrun; [ | vm_compute in Hrun; discriminate].
  apply (gd_evaluates_inverse_transformed_points Edge.boxed_env f
           Edge.inside_unit_box 5 [2; 2]
           (Some (Sample.run_settings 0 0x1p-3 2 false true)) start res w');
    [reflexivity | | | | constructor | exact Hrun].
  - intros x. apply Forall_map, Forall_forall. intros a _.
    apply cap_coordinate_bound. reflexivity.
  - intros x g gp d it gs m v w0 H. exact H.
  - intros out x b err tol it cap switch sinp w0 _ H.
    cbn [error_reporting Edge.boxed_env]. unfold Sample.report.
    destruct (err <=? tol); exact H.
Defined.

(** An objective with a NaN gradient sends the run from the
    initialisation straight to the reporter. *)
Lemma nan_at_start_skips_loop_on_sample :
  gd_basic_impl env Edge.nan_gradient 5 [1; 1] (Some Sample.clipped) start =
    Some (gd_finish env Edge.nan_gradient Sample.clipped
            (bounds_type_of env Sample.clipped [1; 1]) [1; 1]
            (Some Sample.clipped)
            (fst (gd_init env Edge.nan_gradient Sample.clipped
                    (bounds_type_of env Sample.clipped [1; 1]) [1; 1] start))
            (snd (gd_init env Edge.nan_gradient Sample.clipped
                    (bounds_type_of env Sample.clipped [1; 1]) [1; 1] start)))
  /\ res_iter
       (fst (gd_finish env Edge.nan_gradient Sample.clipped
               (bounds_type_of env Sample.clipped [1; 1]) [1; 1]
               (Some Sample.clipped)
               (fst (gd_init env Edge.nan_gradient Sample.clipped
                       (bounds_type_of env Sample.clipped [1; 1]) [1; 1] start))
               (snd (gd_init env Edge.nan_gradient Sample.clipped
                       (bounds_type_of env Sample.clipped [1; 1]) [1; 1] start))))
     = 0%N.
Proof.
  apply (nan_at_start_skips_loop env Edge.nan_gradient 5 [1; 1]
           (Some Sample.clipped) start);
    [reflexivity | apply surjective_pairing | left; reflexivity].
Defined.

(** When the second evaluation returns a NaN gradient, the first
    iteration is the last. *)
Lemma nan_stops_loop_on_sample :
  gd_loop env Edge.flaky_gradient (Sample.run_settings 0 0x1p-3 100 false false)
    Sample.bt 1
    (fst (gd_init env Edge.flaky_gradient
            (Sample.run_settings 0 0x1p-3 100 false false) Sample.bt [1; 1] start))
    (snd (gd_init env Edge.flaky_gradient
            (Sample.run_settings 0 0x1p-3 100 false false) Sample.bt [1; 1] start))
  = Some (gd_iteration env Edge.flaky_gradient
            (Sample.run_settings 0 0x1p-3 100 false false) Sample.bt
            (fst (gd_init env Edge.flaky_gradient
                    (Sample.run_settings 0 0x1p-3 100 false false) Sample.bt
                    [1; 1] start))
            (snd (gd_init env Edge.flaky_gradient
                    (Sample.run_settings 0 0x1p-3 100 false false) Sample.bt
                    [1; 1] start))).
Proof.
  apply nan_stops_loop; [reflexivity | left; reflexivity].
Defined.

(** With a relative-change tolerance of one, a run from [(1, 1)] performs
    no iteration although its gradient is far from the tolerance. *)
Lemma rel_tol_of_one_skips_loop_on_sample :
  gd_basic_impl env f 5 [1; 1] (Some Edge.loose_settings) start =
    Some (gd_finish env f Edge.loose_settings
            (bounds_type_of env Edge.loose_settings [1; 1]) [1; 1]
            (Some Edge.loose_settings)
            (fst (gd_init env f Edge.loose_settings
                    (bounds_type_of env Edge.loose_settings [1; 1]) [1; 1] start))
            (snd (gd_init env f Edge.loose_settings
                    (bounds_type_of env Edge.loose_settings [1; 1]) [1; 1] start)))
  /\ res_iter
       (fst (gd_finish env f Edge.loose_settings
               (bounds_type_of env Edge.loose_settings [1; 1]) [1; 1]
               (Some Edge.loose_settings)
               (fst (gd_init env f Edge.loose_settings
                       (bounds_type_of env Edge.loose_settings [1; 1]) [1; 1]
                       start))
               (snd (gd_init env f Edge.loose_settings
                       (bounds_type_of env Edge.loose_settings [1; 1]) [1; 1]
                       start))))
     = 0%N.
Proof.
  apply (rel_tol_of_one_skips_loop env f 5 [1; 1] (Some Edge.loose_settings)
           start);
    [reflexivity | apply surjective_pairing | reflexivity | left; reflexivity].
Defined.

(** With a step size of zero the point stays at [(1, 1)], the relative
    change is zero and the loop condition fails. *)
Lemma zero_step_stops_loop_on_sample :
  st_x (fst (gd_iteration env f (Sample.run_settings 0 0 100 false false)
               Sample.bt
               (fst (gd_init env f (Sample.run_settings 0 0 100 false false)
                       Sample.bt [1; 1] start))
               (snd (gd_init env f (Sample.run_settings 0 0 100 false false)
                       Sample.bt [1; 1] start)))) = [1; 1]
  /\ st_rel_sol_change
       (fst (gd_iteration env f (Sample.run_settings 0 0 100 false false)
               Sample.bt
               (fst (gd_init env f (Sample.run_settings 0 0 100 false false)
                       Sample.bt [1; 1] start))
               (snd (gd_init env f (Sample.run_settings 0 0 100 false false)
                       Sample.bt [1; 1] start)))) = 0
  /\ loop_guard (Sample.run_settings 0 0 100 false false)
       (fst (gd_iteration env f (Sample.run_settings 0 0 100 false false)
               Sample.bt
               (fst (gd_init env f (Sample.run_settings 0 0 100 false false)
                       Sample.bt [1; 1] start))
               (snd (gd_init env f (Sample.run_settings 0 0 100 false false)
                       Sample.bt [1; 1] start)))) = false.
Proof.
  edestruct (zero_step_stops_loop env f
               (Sample.run_settings 0 0 100 false false) Sample.bt
               (fst (gd_init env f (Sample.run_settings 0 0 100 false false)
                       Sample.bt [1; 1] start))
               (snd (gd_init env f (Sample.run_settings 0 0 100 false false)
                       Sample.bt [1; 1] start)))
    as (Hx & Hrel & Hg & _);
    [lazy; reflexivity | reflexivity | reflexivity | reflexivity | ].
  split; [exact Hx | ]. split; [exact Hrel | exact Hg].
Defined.

(** A run capped at three iterations that has not met a criterion has
    performed exactly three. *)
Lemma loop_exit_reason_on_sample :
  st_iter
    (fst (gd_iterations env f (Sample.run_settings 0 0x1p-3 3 false false)
            Sample.bt 3
            (fst (gd_init env f (Sample.run_settings 0 0x1p-3 3 false false)
                    Sample.bt [1; 1] start))
            (snd (gd_init env f (Sample.run_settings 0 0x1p-3 3 false false)
                    Sample.bt [1; 1] start))))
  = 3%N.
Proof.
  apply (loop_exit_reason env f (Sample.run_settings 0 0x1p-3 3 false false)
           Sample.bt 3
           (fst (gd_init env f (Sample.run_settings 0 0x1p-3 3 false false)
                   Sample.bt [1; 1] start))
           (snd (gd_init env f (Sample.run_settings 0 0x1p-3 3 false false)
                   Sample.bt [1; 1] start))
           (fst (gd_iterations env f (Sample.run_settings 0 0x1p-3 3 false false)
                   Sample.bt 3
                   (fst (gd_init env f
                           (Sample.run_settings 0 0x1p-3 3 false false)
                           Sample.bt [1; 1] start))
                   (snd (gd_init env f
                           (Sample.run_settings 0 0x1p-3 3 false false)
                           Sample.bt [1; 1] start))))
           (snd (gd_iterations env f (Sample.run_settings 0 0x1p-3 3 false false)
                   Sample.bt 3
                   (fst (gd_init env f
                           (Sample.run_settings 0 0x1p-3 3 false false)
                           Sample.bt [1; 1] start))
                   (snd (gd_init env f
                           (Sample.run_settings 0 0x1p-3 3 false false)
                           Sample.bt [1; 1] start)))));
    [reflexivity | vm_compute; discriminate | vm_compute; reflexivity
     | vm_compute; reflexivity | vm_compute; reflexivity].
Defined.

(** Under the plain update rule the accumulators of method code 5 are
    still the zero vectors after three iterations. *)
Lemma update_rule_alone_writes_accumulators_on_sample :
  st_adam_vec_m
    (fst (gd_iterations env f (Sample.run_settings 5 0x1p-3 3 false false)
            Sample.bt 3
            (fst (gd_init env f (Sample.run_settings 5 0x1p-3 3 false false)
                    Sample.bt [1; 1] start))
            (snd (gd_init env f (Sample.run_settings 5 0x1p-3 3 false false)
                    Sample.bt [1; 1] start))))
  = [0; 0].
Proof.
  apply (update_rule_alone_writes_accumulators env f
           (Sample.run_settings 5 0x1p-3 3 false false) Sample.bt 3
           (fst (gd_init env f (Sample.run_settings 5 0x1p-3 3 false false)
                   Sample.bt [1; 1] start))
           (snd (gd_init env f (Sample.run_settings 5 0x1p-3 3 false false)
                   Sample.bt [1; 1] start))
           (fst (gd_iterations env f (Sample.run_settings 5 0x1p-3 3 false false)
                   Sample.bt 3
                   (fst (gd_init env f
                           (Sample.run_settings 5 0x1p-3 3 false false)
                           Sample.bt [1; 1] start))
                   (snd (gd_init env f
                           (Sample.run_settings 5 0x1p-3 3 false false)
                           Sample.bt [1; 1] start))))
           (snd (gd_iterations env f (Sample.run_settings 5 0x1p-3 3 false false)
                   Sample.bt 3
                   (fst (gd_init env f
                           (Sample.run_settings 5 0x1p-3 3 false false)
                           Sample.bt [1; 1] start))
                   (snd (gd_init env f
                           (Sample.run_settings 5 0x1p-3 3 false false)
                           Sample.bt [1; 1] start)))));
    [intros; repeat split | vm_compute; reflexivity].
Defined.


End EdgeRuns.
